(** * Verification of the assistant bot (bot.py)

    A shallow embedding of the contact directory of bot.py: the field
    classes [Phone] and [Birthday], the contact [Record], the
    [AddressBook] and its birthday query, and the [add_contact] command,
    together with the parts of Python's [str] and [datetime] they rest on.

    Python strings are sequences of Unicode code points, exceptions are an
    explicit [outcome], methods that mutate [self] return the object as it is
    left (also when they raise), and what the interpreter takes from its host
    (the system clock read by [datetime.today()], the C library behind
    [strftime]) is an explicit argument. *)

From Stdlib Require Import ZArith List Lia Bool String Ascii DecimalString.
Import ListNotations.
Local Open Scope Z_scope.

(* ================================================================== *)
(** * Python strings *)
(* ================================================================== *)

Module Py.

(** A [str] is a sequence of code points. *)
Definition str := list Z.

(** An ASCII literal as a [str]. *)
Definition lit (s : string) : str :=
  map (fun a => Z.of_N (N_of_ascii a)) (list_ascii_of_string s).

Definition len {A : Type} (l : list A) : Z := Z.of_nat (List.length l).

Fixpoint str_eqb (a b : str) : bool :=
  match a, b with
  | [], [] => true
  | x :: a', y :: b' => (x =? y) && str_eqb a' b'
  | _, _ => false
  end.

Definition in_range (c : Z) (r : Z * Z) : bool := (fst r <=? c) && (c <=? snd r).

Definition in_ranges (rs : list (Z * Z)) (c : Z) : bool := existsb (in_range c) rs.

(** The code points with Numeric_Type Digit or Decimal (Unicode 14.0), the
    characters that [str.isdigit] accepts. *)
Definition digit_ranges : list (Z * Z) :=
  [(48, 57); (178, 179); (185, 185); (1632, 1641); (1776, 1785); (1984, 1993);
   (2406, 2415); (2534, 2543); (2662, 2671); (2790, 2799); (2918, 2927);
   (3046, 3055); (3174, 3183); (3302, 3311); (3430, 3439); (3558, 3567);
   (3664, 3673); (3792, 3801); (3872, 3881); (4160, 4169); (4240, 4249);
   (4969, 4977); (6112, 6121); (6160, 6169); (6470, 6479); (6608, 6618);
   (6784, 6793); (6800, 6809); (6992, 7001); (7088, 7097); (7232, 7241);
   (7248, 7257); (8304, 8304); (8308, 8313); (8320, 8329); (9312, 9320);
   (9332, 9340); (9352, 9360); (9450, 9450); (9461, 9469); (9471, 9471);
   (10102, 10110); (10112, 10120); (10122, 10130); (42528, 42537);
   (43216, 43225); (43264, 43273); (43472, 43481); (43504, 43513);
   (43600, 43609); (44016, 44025); (65296, 65305); (66720, 66729);
   (68160, 68163); (68912, 68921); (69216, 69224); (69714, 69722);
   (69734, 69743); (69872, 69881); (69942, 69951); (70096, 70105);
   (70384, 70393); (70736, 70745); (70864, 70873); (71248, 71257);
   (71360, 71369); (71472, 71481); (71904, 71913); (72016, 72025);
   (72784, 72793); (73040, 73049); (73120, 73129); (92768, 92777);
   (92864, 92873); (93008, 93017); (120782, 120831); (123200, 123209);
   (123632, 123641); (125264, 125273); (127232, 127242); (130032, 130041)].

(** The code points of General_Category Nd (Unicode 14.0): the characters
    that [str.isdecimal], the pattern [\d] and [int] accept.  Every range is
    made of runs of ten, each run starting at the digit zero. *)
Definition decimal_ranges : list (Z * Z) :=
  [(48, 57); (1632, 1641); (1776, 1785); (1984, 1993); (2406, 2415);
   (2534, 2543); (2662, 2671); (2790, 2799); (2918, 2927); (3046, 3055);
   (3174, 3183); (3302, 3311); (3430, 3439); (3558, 3567); (3664, 3673);
   (3792, 3801); (3872, 3881); (4160, 4169); (4240, 4249); (6112, 6121);
   (6160, 6169); (6470, 6479); (6608, 6617); (6784, 6793); (6800, 6809);
   (6992, 7001); (7088, 7097); (7232, 7241); (7248, 7257); (42528, 42537);
   (43216, 43225); (43264, 43273); (43472, 43481); (43504, 43513);
   (43600, 43609); (44016, 44025); (65296, 65305); (66720, 66729);
   (68912, 68921); (69734, 69743); (69872, 69881); (69942, 69951);
   (70096, 70105); (70384, 70393); (70736, 70745); (70864, 70873);
   (71248, 71257); (71360, 71369); (71472, 71481); (71904, 71913);
   (72016, 72025); (72784, 72793); (73040, 73049); (73120, 73129);
   (92768, 92777); (92864, 92873); (93008, 93017); (120782, 120831);
   (123200, 123209); (123632, 123641); (125264, 125273); (130032, 130041)].

Definition isdigit_char (c : Z) : bool := in_ranges digit_ranges c.

Definition isdecimal_char (c : Z) : bool := in_ranges decimal_ranges c.

(** The characters 0 to 9. *)
Definition is_ascii_digit (c : Z) : bool := (48 <=? c) && (c <=? 57).

(** [s.isdigit()]: at least one character, and all of them digits. *)
Definition isdigit (s : str) : bool :=
  match s with
  | [] => false
  | _ :: _ => forallb isdigit_char s
  end.

(** The value of a decimal character. *)
Definition decimal_value (c : Z) : Z :=
  match List.find (in_range c) decimal_ranges with
  | Some r => (c - fst r) mod 10
  | None => 0
  end.

(** [int(s)] for [s] a run of decimal characters, possibly after blanks
    (which [int] strips). *)
Fixpoint lstrip (s : str) : str :=
  match s with
  | c :: s' => if c =? 32 then lstrip s' else s
  | [] => []
  end.

Definition int (s : str) : Z :=
  fold_left (fun acc c => acc * 10 + decimal_value c) (lstrip s) 0.

(** [str(n)] of an integer. *)
Definition str_of_int (n : Z) : str := lit (NilZero.string_of_int (Z.to_int n)).

(** Exceptions the program meets; each carries its message. *)
Inductive exn : Type :=
| ValueError (msg : str)
| KeyError (msg : str)
| IndexError (msg : str)
| OverflowError (msg : str)
| AttributeError (msg : str)
| Exception (msg : str).

Definition exn_msg (e : exn) : str :=
  match e with
  | ValueError m | KeyError m | IndexError m
  | OverflowError m | AttributeError m | Exception m => m
  end.

(** The result of a call: a value, or a raised exception. *)
Inductive outcome (A : Type) : Type :=
| Return (a : A)
| Raise (e : exn).
Arguments Return {A} a.
Arguments Raise {A} e.

Definition bind {A B : Type} (m : outcome A) (k : A -> outcome B) : outcome B :=
  match m with
  | Return a => k a
  | Raise e => Raise e
  end.

Definition raises {A : Type} (m : outcome A) : Prop := exists e, m = Raise e.

End Py.

Import Py.

Notation "x <- m ;; k" := (bind m (fun x => k))
  (at level 61, m at next level, right associativity).

(* ================================================================== *)
(** * Python's datetime *)
(* ================================================================== *)

Module datetime.

Definition MINYEAR : Z := 1.
Definition MAXYEAR : Z := 9999.
(** [date.max.toordinal()] *)
Definition MAXORDINAL : Z := 3652059.

Definition DAYS_IN_MONTH : list Z :=
  [-1; 31; 28; 31; 30; 31; 30; 31; 31; 30; 31; 30; 31].

Definition DAYS_BEFORE_MONTH : list Z :=
  [-1; 0; 31; 59; 90; 120; 151; 181; 212; 243; 273; 304; 334].

Definition is_leap (year : Z) : bool :=
  (year mod 4 =? 0) && (negb (year mod 100 =? 0) || (year mod 400 =? 0)).

Definition days_before_year (year : Z) : Z :=
  let y := year - 1 in
  y * 365 + y / 4 - y / 100 + y / 400.

Definition days_in_month (year month : Z) : Z :=
  if (month =? 2) && is_leap year then 29
  else nth (Z.to_nat month) DAYS_IN_MONTH 0.

Definition days_before_month (year month : Z) : Z :=
  nth (Z.to_nat month) DAYS_BEFORE_MONTH 0
  + (if (2 <? month) && is_leap year then 1 else 0).

Definition ymd2ord (year month day : Z) : Z :=
  days_before_year year + days_before_month year month + day.

Definition DI400Y : Z := 146097.
Definition DI100Y : Z := 36524.
Definition DI4Y : Z := 1461.

(** Month and day of the [n]-th day (from 0) of a year. *)
Definition month_day (leapyear : bool) (n : Z) : Z * Z :=
  let month := Z.shiftr (n + 50) 5 in
  let preceding :=
    nth (Z.to_nat month) DAYS_BEFORE_MONTH 0
    + (if (2 <? month) && leapyear then 1 else 0) in
  if n <? preceding then
    let month' := month - 1 in
    let preceding' :=
      preceding - (nth (Z.to_nat month') DAYS_IN_MONTH 0
                   + (if (month' =? 2) && leapyear then 1 else 0)) in
    (month', n - preceding' + 1)
  else (month, n - preceding + 1).

Definition ord2ymd (ordinal : Z) : Z * Z * Z :=
  let n := ordinal - 1 in
  let n400 := n / DI400Y in
  let n := n mod DI400Y in
  let year := n400 * 400 + 1 in
  let n100 := n / DI100Y in
  let n := n mod DI100Y in
  let n4 := n / DI4Y in
  let n := n mod DI4Y in
  let n1 := n / 365 in
  let n := n mod 365 in
  let year := year + n100 * 100 + n4 * 4 + n1 in
  if (n1 =? 4) || (n100 =? 4) then (year - 1, 12, 31)
  else
    let leapyear := (n1 =? 3) && (negb (n4 =? 24) || (n100 =? 3)) in
    let '(month, day) := month_day leapyear n in
    (year, month, day).

(** A [date] object. *)
Record date : Type := mkdate { year : Z; month : Z; day : Z }.

(** The fields a constructed [date] can have. *)
Definition valid_date (d : date) : Prop :=
  MINYEAR <= year d <= MAXYEAR /\ 1 <= month d <= 12
  /\ 1 <= day d <= days_in_month (year d) (month d).

(** [date(year, month, day)] *)
Definition date_new (y m d : Z) : outcome date :=
  if negb ((MINYEAR <=? y) && (y <=? MAXYEAR)) then
    Raise (ValueError (lit "year " ++ str_of_int y ++ lit " is out of range"))
  else if negb ((1 <=? m) && (m <=? 12)) then
    Raise (ValueError (lit "month must be in 1..12"))
  else if negb ((1 <=? d) && (d <=? days_in_month y m)) then
    Raise (ValueError (lit "day is out of range for month"))
  else Return (mkdate y m d).

(** [d.replace(year=y)] *)
Definition replace_year (d : date) (y : Z) : outcome date :=
  date_new y (month d) (day d).

Definition toordinal (d : date) : Z := ymd2ord (year d) (month d) (day d).

Definition fromordinal (n : Z) : date :=
  let '(y, m, d) := ord2ymd n in mkdate y m d.

(** [d.weekday()]: Monday is 0, Sunday is 6. *)
Definition weekday (d : date) : Z := (toordinal d + 6) mod 7.

(** [a < b] *)
Definition date_ltb (a b : date) : bool :=
  (year a <? year b)
  || ((year a =? year b)
      && ((month a <? month b)
          || ((month a =? month b) && (day a <? day b)))).

(** [(a - b).days] *)
Definition sub_days (a b : date) : Z := toordinal a - toordinal b.

(** [d + timedelta(days=k)] *)
Definition add_days (d : date) (k : Z) : outcome date :=
  let o := toordinal d + k in
  if (0 <? o) && (o <=? MAXORDINAL) then Return (fromordinal o)
  else Raise (OverflowError (lit "date value out of range")).

(** Two decimal digits, zero-padded: the directives [%d] and [%m]. *)
Definition fmt2 (n : Z) : str := [48 + n / 10; 48 + n mod 10].

(** The directive [%Y] is the C library's: glibc writes the year as it is,
    other C libraries (and CPython from 3.13 on) pad it with zeros to four
    digits.  [pad] says which one the host has; from year 1000 on they
    agree. *)
Definition fmtY (pad : bool) (y : Z) : str :=
  let s := str_of_int y in
  if pad then repeat 48 (4 - List.length s)%nat ++ s else s.

(** [d.strftime('%d.%m.%Y')] *)
Definition strftime_dmY (pad : bool) (d : date) : str :=
  fmt2 (day d) ++ [46] ++ fmt2 (month d) ++ [46] ++ fmtY pad (year d).

(** A [datetime] object (naive). *)
Record datetime : Type := mkdatetime {
  dt_date : date;
  hour : Z; minute : Z; second : Z; microsecond : Z
}.

(** ** strptime with the format [%d.%m.%Y]

    The format compiles to the regular expression
    [(?P<d>3[0-1]|[1-2]\d|0[1-9]|[1-9]| [1-9])\.(?P<m>1[0-2]|0[1-9]|[1-9])\.(?P<Y>\d\d\d\d)],
    matched at the start of the input.  Each piece below takes the
    continuation [k] that matches what follows it: an alternative whose
    continuation fails gives way to the next one, as the backtracking
    matcher does. *)

Section Regex.
Context {R : Type}.

Definition orelse (a b : option R) : option R :=
  match a with Some _ => a | None => b end.

(** two characters, the first in [lo1..hi1], the second satisfying [p2] *)
Definition two (lo1 hi1 : Z) (p2 : Z -> bool) (k : str -> str -> option R)
    (s : str) : option R :=
  match s with
  | a :: b :: r =>
      if (lo1 <=? a) && (a <=? hi1) && p2 b then k [a; b] r else None
  | _ => None
  end.

(** one character in [lo..hi] *)
Definition one (lo hi : Z) (k : str -> str -> option R) (s : str) : option R :=
  match s with
  | a :: r => if (lo <=? a) && (a <=? hi) then k [a] r else None
  | _ => None
  end.

Definition between (lo hi : Z) (c : Z) : bool := (lo <=? c) && (c <=? hi).

(** [3[0-1]|[1-2]\d|0[1-9]|[1-9]| [1-9]] *)
Definition re_d (k : str -> str -> option R) (s : str) : option R :=
  orelse (two 51 51 (between 48 49) k s)
 (orelse (two 49 50 isdecimal_char k s)
 (orelse (two 48 48 (between 49 57) k s)
 (orelse (one 49 57 k s)
         (two 32 32 (between 49 57) k s)))).

(** [1[0-2]|0[1-9]|[1-9]] *)
Definition re_m (k : str -> str -> option R) (s : str) : option R :=
  orelse (two 49 49 (between 48 50) k s)
 (orelse (two 48 48 (between 49 57) k s)
         (one 49 57 k s)).

(** [\d\d\d\d] *)
Definition re_Y (k : str -> str -> option R) (s : str) : option R :=
  match s with
  | a :: b :: c :: d :: r =>
      if isdecimal_char a && isdecimal_char b
         && isdecimal_char c && isdecimal_char d
      then k [a; b; c; d] r else None
  | _ => None
  end.

(** [\.] *)
Definition re_dot (k : str -> option R) (s : str) : option R :=
  match s with
  | c :: r => if c =? 46 then k r else None
  | [] => None
  end.

End Regex.

(** The groups [d], [m], [Y] of the first match, and the input left over. *)
Definition re_match (s : str) : option (str * str * str * str) :=
  re_d (fun d r1 =>
    re_dot (fun r2 =>
      re_m (fun m r3 =>
        re_dot (fun r4 =>
          re_Y (fun Y r5 => Some (d, m, Y, r5)) r4) r3) r2) r1) s.

(** [datetime.strptime(s, '%d.%m.%Y')].  The messages are shortened (Python
    quotes the input in them). *)
Definition strptime_dmY (s : str) : outcome datetime :=
  match re_match s with
  | None => Raise (ValueError (lit "time data does not match format"))
  | Some (d, m, Y, rest) =>
      match rest with
      | _ :: _ => Raise (ValueError (lit "unconverted data remains"))
      | [] =>
          dt <- date_new (int Y) (int m) (int d) ;;
          Return (mkdatetime dt 0 0 0 0)
      end
  end.

End datetime.

Import datetime.

(* ================================================================== *)
(** * bot.py: fields, records and the address book *)
(* ================================================================== *)

(** ** Fields *)

Record Name : Type := mkName { Name_value : str }.

Record Phone : Type := mkPhone { Phone_value : str }.

Record Birthday : Type := mkBirthday { Birthday_value : date }.

(** [Phone(value)] *)
Definition Phone_init (value : str) : outcome Phone :=
  if negb (isdigit value) || negb (len value =? 10) then
    Raise (ValueError (lit "Invalid phone number format"))
  else Return (mkPhone value).

(** [Birthday(value)]: a [ValueError] of [strptime] is raised again with the
    message of the class. *)
Definition Birthday_init (value : str) : outcome Birthday :=
  match strptime_dmY value with
  | Return dt => Return (mkBirthday (dt_date dt))
  | Raise (ValueError _) =>
      Raise (ValueError (lit "Invalid date format. Use DD.MM.YYYY"))
  | Raise e => Raise e
  end.

(** ** Records

    A method that mutates [self] returns its outcome together with the object
    as the call leaves it. *)

Record RecordObj : Type := mkRecord {
  name : Name;
  phones : list Phone;
  birthday : option Birthday
}.

Definition set_phones (self : RecordObj) (ps : list Phone) : RecordObj :=
  mkRecord (name self) ps (birthday self).

Definition set_birthday (self : RecordObj) (b : option Birthday) : RecordObj :=
  mkRecord (name self) (phones self) b.

(** [Record(name)] *)
Definition Record_init (name_ : str) : outcome RecordObj :=
  Return (mkRecord (mkName name_) [] None).

(** [self.add_phone(phone)] *)
Definition add_phone (self : RecordObj) (phone : str) : outcome unit * RecordObj :=
  if negb (isdigit phone) || negb (len phone =? 10) then
    (Raise (ValueError (lit "Invalid phone number format")), self)
  else
    match Phone_init phone with
    | Return p => (Return tt, set_phones self (phones self ++ [p]))
    | Raise e => (Raise e, self)
    end.

(** [self.add_birthday(birthday)] *)
Definition add_birthday (self : RecordObj) (birthday_ : str) : outcome unit * RecordObj :=
  match Birthday_init birthday_ with
  | Return b => (Return tt, set_birthday self (Some b))
  | Raise e => (Raise e, self)
  end.

(** [self.remove_phone(phone)]: the first entry with that value goes. *)
Fixpoint remove_phone_loop (ps : list Phone) (phone : str) : list Phone :=
  match ps with
  | [] => []
  | p :: rest =>
      if str_eqb (Phone_value p) phone then rest
      else p :: remove_phone_loop rest phone
  end.

Definition remove_phone (self : RecordObj) (phone : str) : outcome unit * RecordObj :=
  (Return tt, set_phones self (remove_phone_loop (phones self) phone)).

(** The loop of [edit_phone]: whether an entry was found (or the exception
    raised inside the loop), and the list as the loop leaves it. *)
Fixpoint edit_phone_loop (ps : list Phone) (old_phone new_phone : str)
    : outcome bool * list Phone :=
  match ps with
  | [] => (Return false, [])
  | p :: rest =>
      if str_eqb (Phone_value p) old_phone then
        if negb (isdigit new_phone) || negb (len new_phone =? 10) then
          (Raise (ValueError (lit "Invalid new phone number format")), p :: rest)
        else (Return true, mkPhone new_phone :: rest)
      else
        let '(r, rest') := edit_phone_loop rest old_phone new_phone in
        (r, p :: rest')
  end.

(** [self.edit_phone(old_phone, new_phone)] *)
Definition edit_phone (self : RecordObj) (old_phone new_phone : str)
    : outcome unit * RecordObj :=
  let '(r, ps) := edit_phone_loop (phones self) old_phone new_phone in
  let self' := set_phones self ps in
  match r with
  | Raise e => (Raise e, self')
  | Return found =>
      if negb found then
        (Raise (ValueError (lit "Old phone number not found")), self')
      else (Return tt, self')
  end.

(** [self.find_phone(phone)] *)
Definition find_phone (self : RecordObj) (phone : str) : option Phone :=
  List.find (fun p => str_eqb (Phone_value p) phone) (phones self).

(** ** The address book

    The dictionary [self.data], in insertion order.  Every record is owned
    by the book, under the one key it was stored at, so a record is kept in
    the entry itself and mutating it is rewriting that entry. *)

Definition AddressBook : Type := list (str * RecordObj).

(** [self.data.get(key)] *)
Fixpoint find (name_ : str) (self : AddressBook) : option RecordObj :=
  match self with
  | [] => None
  | (k, r) :: rest => if str_eqb k name_ then Some r else find name_ rest
  end.

(** [self.data[key] = value]: an existing key keeps its place, a new one goes
    last. *)
Fixpoint setitem (key : str) (value : RecordObj) (self : AddressBook) : AddressBook :=
  match self with
  | [] => [(key, value)]
  | (k, r) :: rest =>
      if str_eqb k key then (k, value) :: rest
      else (k, r) :: setitem key value rest
  end.

(** [self.add_record(record)] *)
Definition add_record (record : RecordObj) (self : AddressBook) : AddressBook :=
  setitem (Name_value (name record)) record self.

(** [self.delete(name)] *)
Fixpoint delete (name_ : str) (self : AddressBook) : AddressBook :=
  match self with
  | [] => []
  | (k, r) :: rest =>
      if str_eqb k name_ then rest else (k, r) :: delete name_ rest
  end.

(** [self.data.values()] *)
Definition values (self : AddressBook) : list RecordObj := map snd self.

(** ** The birthday query *)

(** An element of the result: a dictionary with these two keys. *)
Record congratulation : Type := mkCongratulation {
  cg_name : str;
  congratulation_date : str
}.

(** What the interpreter takes from its host in [get_upcoming_birthdays]:
    the reading of the system clock by [datetime.today()], and whether the
    C library pads [%Y]. *)
Record Host : Type := mkHost {
  clock : datetime;
  pads_year : bool
}.

Definition prepare_users (records : list RecordObj) : list RecordObj :=
  filter (fun record => match birthday record with Some _ => true | None => false end)
         records.

Definition find_next_weekday (d : date) (weekday_ : Z) : outcome date :=
  let days_ahead := weekday_ - weekday d in
  let days_ahead := if days_ahead <=? 0 then days_ahead + 7 else days_ahead in
  add_days d days_ahead.

(** Lines 98 to 101: the birthday in today's year, or in the next one when
    that is already past. *)
Definition next_occurrence (today : date) (b : date) : outcome date :=
  birthday_this_year <- replace_year b (year today) ;;
  if date_ltb birthday_this_year today
  then replace_year birthday_this_year (year today + 1)
  else Return birthday_this_year.

(** Lines 104 and 105: a Saturday or Sunday moves to the next Monday. *)
Definition roll_weekend (d : date) : outcome date :=
  if 5 <=? weekday d then find_next_weekday d 0 else Return d.

(** Line 103 *)
Definition in_window (today : date) (days : Z) (d : date) : bool :=
  (0 <=? sub_days d today) && (sub_days d today <=? days).

(** One turn of the loop of [find_upcoming_birthdays]. *)
Definition upcoming_step (pad : bool) (today : date) (days : Z)
    (upcoming_birthdays : list congratulation) (record : RecordObj)
    : outcome (list congratulation) :=
  match birthday record with
  | None => Raise (AttributeError (lit "'NoneType' object has no attribute 'value'"))
  | Some b =>
      birthday_this_year <- next_occurrence today (Birthday_value b) ;;
      if in_window today days birthday_this_year then
        birthday_this_year <- roll_weekend birthday_this_year ;;
        let congratulation_date_str := strftime_dmY pad birthday_this_year in
        Return (upcoming_birthdays
                  ++ [mkCongratulation (Name_value (name record))
                                       congratulation_date_str])
      else Return upcoming_birthdays
  end.

Fixpoint upcoming_loop (pad : bool) (today : date) (days : Z)
    (upcoming_birthdays : list congratulation) (records : list RecordObj)
    : outcome (list congratulation) :=
  match records with
  | [] => Return upcoming_birthdays
  | record :: rest =>
      upcoming_birthdays <- upcoming_step pad today days upcoming_birthdays record ;;
      upcoming_loop pad today days upcoming_birthdays rest
  end.

Definition find_upcoming_birthdays (host : Host) (days : Z)
    (prepared_records : list RecordObj) : outcome (list congratulation) :=
  let today := dt_date (clock host) in
  upcoming_loop (pads_year host) today days [] prepared_records.

(** [self.get_upcoming_birthdays(days)] *)
Definition get_upcoming_birthdays (host : Host) (self : AddressBook) (days : Z)
    : outcome (list congratulation) :=
  let prepared_records := prepare_users (values self) in
  find_upcoming_birthdays host days prepared_records.

(** ** The add command *)

(** [input_error]: the decorated function answers with a text whatever
    happens; the book stays as the call left it. *)
Definition input_error {S : Type} (r : outcome str * S) : str * S :=
  match fst r with
  | Return v => (v, snd r)
  | Raise (ValueError _) =>
      (lit "Give me name and correct format of phone (10 digits) please.", snd r)
  | Raise (KeyError _) => (lit "No contact found.", snd r)
  | Raise (IndexError _) => (lit "Enter username.", snd r)
  | Raise e => (exn_msg e, snd r)
  end.

(** Lines 136 to 141 of [add_contact], the find-or-create that the
    specification calls addOrGet: the record, the message, and the book. *)
Definition addOrGet (name_ : str) (book : AddressBook)
    : outcome (RecordObj * str) * AddressBook :=
  match find name_ book with
  | Some record => (Return (record, lit "Contact updated."), book)
  | None =>
      match Record_init name_ with
      | Return record =>
          (Return (record, lit "Contact added."), add_record record book)
      | Raise e => (Raise e, book)
      end
  end.

(** The body of [add_contact], before [input_error].  The record that
    [add_phone] is called on is the one in the book: when the call returns,
    the entry of the name holds the record with the new phone; when it
    raises, which it does before it touches the record, nothing is written
    and the book is as the find-or-create left it. *)
Definition add_contact_body (args : list str) (book : AddressBook)
    : outcome str * AddressBook :=
  match args with
  | name_ :: phone :: _ =>
      match addOrGet name_ book with
      | (Raise e, book1) => (Raise e, book1)
      | (Return (record, message), book1) =>
          match phone with
          | [] => (Return message, book1)
          | _ :: _ =>
              match add_phone record phone with
              | (Return _, record') =>
                  (Return message, setitem name_ record' book1)
              | (Raise e, _) => (Raise e, book1)
              end
          end
      end
  | _ =>
      (Raise (ValueError (lit "not enough values to unpack (expected at least 2, got "
                          ++ str_of_int (len args) ++ lit ")")), book)
  end.

Definition add_contact (args : list str) (book : AddressBook) : str * AddressBook :=
  input_error (add_contact_body args book).

(* ================================================================== *)
(** * bot.py: the other commands and the command line *)
(* ================================================================== *)

(** ** More of [str] *)

Module PyText.

(** The characters that [str.isspace] holds of; [str.split()] and
    [str.strip()] cut at them. *)
Definition space_ranges : list (Z * Z) :=
  [(9, 13); (28, 32); (133, 133); (160, 160); (5760, 5760); (8192, 8202);
   (8232, 8233); (8239, 8239); (8287, 8287); (12288, 12288)].

Definition isspace_char (c : Z) : bool := in_ranges space_ranges c.

(** [s.split()]: [tok] is the word being read. *)
Fixpoint split_loop (s : str) (tok : str) : list str :=
  match s with
  | [] => match tok with [] => [] | _ :: _ => [tok] end
  | c :: s' =>
      if isspace_char c then
        match tok with
        | [] => split_loop s' []
        | _ :: _ => tok :: split_loop s' []
        end
      else split_loop s' (tok ++ [c])
  end.

Definition split (s : str) : list str := split_loop s [].

Fixpoint lstrip_space (s : str) : str :=
  match s with
  | c :: s' => if isspace_char c then lstrip_space s' else s
  | [] => []
  end.

(** [s.strip()] *)
Definition strip (s : str) : str := rev (lstrip_space (rev (lstrip_space s))).

(** [sep.join(items)] *)
Fixpoint join (sep : str) (items : list str) : str :=
  match items with
  | [] => []
  | [x] => x
  | x :: rest => x ++ sep ++ join sep rest
  end.

End PyText.

Import PyText.

(** ** The text of a record *)

(** [str(phone)], the [__str__] of [Field] on a phone *)
Definition Phone_str (p : Phone) : str := Phone_value p.

(** [str(record)] *)
Definition Record_str (self : RecordObj) : str :=
  lit "Contact name: " ++ Name_value (name self) ++ lit ", phones: "
  ++ join (lit ", ") (map Phone_str (phones self)).

(** ** The commands

    As [add_contact], each command is a body under [input_error].  The
    commands that only read the book return their text. *)

(** The text [input_error] answers with for an exception. *)
Definition error_text (e : exn) : str :=
  match e with
  | ValueError _ =>
      lit "Give me name and correct format of phone (10 digits) please."
  | KeyError _ => lit "No contact found."
  | IndexError _ => lit "Enter username."
  | _ => exn_msg e
  end.

(** [input_error] around a body that does not touch the book. *)
Definition input_error_read (r : outcome str) : str := fst (input_error (r, tt)).

Module Commands.

Definition change_contact_body (args : list str) (book : AddressBook)
    : outcome str * AddressBook :=
  if len args <? 3 then
    (Raise (Exception (lit "Enter name, old phone number, and new phone number.")),
     book)
  else
    match args with
    | [name_; old_phone; new_phone] =>
        match find name_ book with
        | Some record =>
            match find_phone record old_phone with
            | Some _ =>
                let '(r, record') := edit_phone record old_phone new_phone in
                let book' := setitem name_ record' book in
                match r with
                | Return _ => (Return (lit "Contact updated successfully"), book')
                | Raise (ValueError msg) => (Return msg, book')
                | Raise e => (Raise e, book')
                end
            | None => (Return (lit "The old number is not correct"), book)
            end
        | None => (Return (lit "Contact not found."), book)
        end
    | _ => (Raise (ValueError (lit "too many values to unpack (expected 3)")), book)
    end.

Definition change_contact (args : list str) (book : AddressBook) : str * AddressBook :=
  input_error (change_contact_body args book).

Definition phone_contact_body (args : list str) (book : AddressBook) : outcome str :=
  match args with
  | [] => Raise (IndexError (lit "list index out of range"))
  | username :: _ =>
      match find username book with
      | Some record =>
          let phone_numbers := join (lit ", ") (map Phone_str (phones record)) in
          Return (lit "Phone numbers for " ++ username ++ lit ": " ++ phone_numbers)
      | None => Return (lit "No contact found with username " ++ username)
      end
  end.

Definition phone_contact (args : list str) (book : AddressBook) : str :=
  input_error_read (phone_contact_body args book).

Definition show_contact_body (args : list str) (book : AddressBook) : outcome str :=
  if len args <? 1 then Raise (IndexError [])
  else
    match args with
    | name_ :: _ =>
        match find name_ book with
        | Some record => Return (Record_str record)
        | None => Return (lit "No contact found with username " ++ name_)
        end
    | [] => Raise (ValueError (lit "not enough values to unpack (expected at least 1, got 0)"))
    end.

Definition show_contact (args : list str) (book : AddressBook) : str :=
  input_error_read (show_contact_body args book).

Definition add_birthday_body (args : list str) (book : AddressBook)
    : outcome str * AddressBook :=
  if len args <? 2 then
    (Raise (Exception (lit "Add a user name and birthday please.")), book)
  else
    match args with
    | [name_; birthday_] =>
        match find name_ book with
        | Some record =>
            let '(r, record') := add_birthday record birthday_ in
            let book' := setitem name_ record' book in
            match r with
            | Return _ => (Return (lit "Birthday added for " ++ name_ ++ lit "."), book')
            | Raise (ValueError _) =>
                (Return (lit "Invalid date format. Use DD.MM.YYYY"), book')
            | Raise e => (Raise e, book')
            end
        | None => (Return (lit "Contact not found."), book)
        end
    | _ => (Raise (ValueError (lit "too many values to unpack (expected 2)")), book)
    end.

Definition add_birthday (args : list str) (book : AddressBook) : str * AddressBook :=
  input_error (add_birthday_body args book).

Definition show_birthday_body (pad : bool) (args : list str) (book : AddressBook)
    : outcome str :=
  if len args <? 1 then Raise (IndexError [])
  else
    match args with
    | name_ :: _ =>
        match find name_ book with
        | Some record =>
            match birthday record with
            | Some b =>
                Return (name_ ++ lit "'s birthday: "
                        ++ strftime_dmY pad (Birthday_value b))
            | None => Return (name_ ++ lit " has no birthday set.")
            end
        | None => Return (lit "Contact not found.")
        end
    | [] => Raise (ValueError (lit "not enough values to unpack (expected at least 1, got 0)"))
    end.

Definition show_birthday (pad : bool) (args : list str) (book : AddressBook) : str :=
  input_error_read (show_birthday_body pad args book).

(** One line of the answer of [birthdays]. *)
Definition birthday_line (user : congratulation) : str :=
  cg_name user ++ lit "'s birthday: " ++ congratulation_date user.

Definition birthdays_body (host : Host) (args : list str) (book : AddressBook)
    : outcome str :=
  upcoming_birthdays <- get_upcoming_birthdays host book 7 ;;
  match upcoming_birthdays with
  | _ :: _ =>
      Return (lit "Upcoming birthdays:" ++ [10]
              ++ join [10] (map birthday_line upcoming_birthdays))
  | [] => Return (lit "No upcoming birthdays within the next week.")
  end.

Definition birthdays (host : Host) (args : list str) (book : AddressBook) : str :=
  input_error_read (birthdays_body host args book).

End Commands.

(** ** The command line

    [str.lower] follows the case mapping of Unicode; the program only
    compares its result with the names of the commands, and it is left as a
    parameter. *)

(** What the decorated [parse_input] returns: the tuple of the command and
    its arguments, or the text of [input_error]. *)
Inductive parsed : Type :=
| Tuple (cmd : str) (args : list str)
| Text (s : str).

(** What the program writes: the prompt of [input], and the lines of
    [print]. *)
Inductive event : Type :=
| Prompted (text : str)
| Printed (line : str).

(** How [main] ends: after [close] or [exit], by the [EOFError] of [input]
    when the input is over, or by an exception of its own. *)
Inductive ending : Type :=
| GoodBye
| EndOfInput
| Crashed (e : exn).

Definition banner : list str :=
  [lit "Welcome to the assistant bot! Here are the commands:";
   lit "  - hello: Get a greeting.";
   lit "  - add [name] [phone]: Add or update a contact.";
   lit "  - change [name] [old phone] [new phone]: change phone number.";
   lit "  - show <name>: Show details of a contact";
   lit "  - phone <name>: Calling a contact";
   lit "  - all: Show all contacts";
   lit "  - close/exit: Exit the assistant";
   lit "  - add-birthday [name] [birthday]: Add birthday.";
   lit "  - show-birthday [name]: Show birthday.";
   lit "  - birthdays: Show upcoming birthdays.";
   lit "  - close or exit: Close the program."].

Definition prompt : str := lit "Enter a command: ".

Section CommandLine.

Variable lower : str -> str.

Definition parse_input_body (user_input : str) : outcome (str * list str) :=
  match split user_input with
  | cmd :: args => Return (lower (strip cmd), args)
  | [] =>
      Raise (ValueError (lit "not enough values to unpack (expected at least 1, got 0)"))
  end.

Definition parse_input (user_input : str) : parsed :=
  match parse_input_body user_input with
  | Return (cmd, args) => Tuple cmd args
  | Raise e => Text (error_text e)
  end.

(** [command, *args = parse_input(user_input)]: a tuple gives its parts, a
    text its characters. *)
Definition unpack (p : parsed) : outcome (str * list str) :=
  match p with
  | Tuple cmd args => Return (cmd, args)
  | Text (c :: s) => Return ([c], map (fun x => [x]) s)
  | Text [] =>
      Raise (ValueError (lit "not enough values to unpack (expected at least 1, got 0)"))
  end.

(** The branches of the loop of [main]: the lines printed, the book, and
    whether the loop goes on. *)
Definition dispatch (host : Host) (command : str) (args : list str)
    (book : AddressBook) : list str * AddressBook * bool :=
  if str_eqb command (lit "close") || str_eqb command (lit "exit") then
    ([lit "Good bye!"], book, false)
  else if str_eqb command (lit "hello") then
    ([lit "How can I help you?"], book, true)
  else if str_eqb command (lit "add") then
    let '(text, book') := add_contact args book in ([text], book', true)
  else if str_eqb command (lit "change") then
    let '(text, book') := Commands.change_contact args book in ([text], book', true)
  else if str_eqb command (lit "show") then
    ([Commands.show_contact args book], book, true)
  else if str_eqb command (lit "phone") then
    ([Commands.phone_contact args book], book, true)
  else if str_eqb command (lit "all") then
    (map Record_str (values book), book, true)
  else if str_eqb command (lit "add-birthday") then
    let '(text, book') := Commands.add_birthday args book in ([text], book', true)
  else if str_eqb command (lit "show-birthday") then
    ([Commands.show_birthday (pads_year host) args book], book, true)
  else if str_eqb command (lit "birthdays") then
    ([Commands.birthdays host args book], book, true)
  else ([lit "Invalid command."], book, true).

(** The loop of [main] over the lines typed, each with what the clock reads
    when its command runs. *)
Fixpoint main_loop (pad : bool) (inputs : list (datetime * str))
    (book : AddressBook) : list event * AddressBook * ending :=
  match inputs with
  | [] => ([Prompted prompt], book, EndOfInput)
  | (now, user_input) :: rest =>
      match unpack (parse_input user_input) with
      | Raise e => ([Prompted prompt], book, Crashed e)
      | Return (command, args) =>
          let '(out, book', go_on) := dispatch (mkHost now pad) command args book in
          if go_on then
            let '(evs, book'', e) := main_loop pad rest book' in
            (Prompted prompt :: map Printed out ++ evs, book'', e)
          else (Prompted prompt :: map Printed out, book', GoodBye)
      end
  end.

Definition main (pad : bool) (inputs : list (datetime * str))
    : list event * AddressBook * ending :=
  let '(evs, book, e) := main_loop pad inputs [] in
  (map Printed banner ++ evs, book, e).

End CommandLine.

(* ================================================================== *)
(** * Facts about the calendar *)
(* ================================================================== *)

Module DatetimeFacts.

#[local] Arguments Z.add _ _ : simpl never.
#[local] Arguments Z.sub _ _ : simpl never.
#[local] Arguments Z.mul _ _ : simpl never.

(** The integers from 0 below [n]. *)
Fixpoint range_from (start : Z) (n : nat) : list Z :=
  match n with
  | O => []
  | S k => start :: range_from (start + 1) k
  end.

Definition upto (n : nat) : list Z := range_from 0 n.

Lemma in_range_from (n : nat) (start z : Z) :
  start <= z < start + Z.of_nat n -> In z (range_from start n).
Proof.
  revert start. induction n as [| k IH]; intros start H; [lia|].
  simpl. destruct (Z.eq_dec start z) as [E | E]; [now left|].
  right. apply IH. lia.
Qed.

Lemma in_upto (n : nat) (z : Z) : 0 <= z < Z.of_nat n -> In z (upto n).
Proof. intros H. apply in_range_from. lia. Qed.

(** What [month_day] has to deliver for the day [n] of a year. *)
Definition month_day_ok (leapyear : bool) (n : Z) : bool :=
  let '(m, d) := month_day leapyear n in
  (1 <=? m) && (m <=? 12) && (1 <=? d)
  && (d <=? nth (Z.to_nat m) DAYS_IN_MONTH 0
            + (if (m =? 2) && leapyear then 1 else 0))
  && (nth (Z.to_nat m) DAYS_BEFORE_MONTH 0
      + (if (2 <? m) && leapyear then 1 else 0) + d =? n + 1).

Lemma month_day_table :
  forallb (month_day_ok false) (upto 365) && forallb (month_day_ok true) (upto 366) = true.
Proof. vm_compute. reflexivity. Qed.

Lemma month_day_spec (leapyear : bool) (n : Z) :
  0 <= n < 365 + (if leapyear then 1 else 0) ->
  month_day_ok leapyear n = true.
Proof.
  intros H. pose proof month_day_table as T.
  apply andb_true_iff in T. destruct T as [T0 T1].
  destruct leapyear.
  - rewrite forallb_forall in T1. apply T1. apply in_upto. lia.
  - rewrite forallb_forall in T0. apply T0. apply in_upto. lia.
Qed.

Lemma is_leap_cycle (n400 n100 n4 n1 : Z) :
  0 <= n100 <= 3 -> 0 <= n4 <= 24 -> 0 <= n1 <= 3 ->
  is_leap (n400 * 400 + 1 + n100 * 100 + n4 * 4 + n1)
  = (n1 =? 3) && (negb (n4 =? 24) || (n100 =? 3)).
Proof.
  intros H100 H4 H1. unfold is_leap.
  set (Y := n400 * 400 + 1 + n100 * 100 + n4 * 4 + n1).
  assert (E4 : Y mod 4 = (n1 + 1) mod 4).
  { unfold Y. replace (n400 * 400 + 1 + n100 * 100 + n4 * 4 + n1)
      with ((n1 + 1) + (n400 * 100 + n100 * 25 + n4) * 4) by ring.
    apply Z.mod_add. lia. }
  assert (E100 : Y mod 100 = (n4 * 4 + n1 + 1) mod 100).
  { unfold Y. replace (n400 * 400 + 1 + n100 * 100 + n4 * 4 + n1)
      with ((n4 * 4 + n1 + 1) + (n400 * 4 + n100) * 100) by ring.
    apply Z.mod_add. lia. }
  assert (E400 : Y mod 400 = (n100 * 100 + n4 * 4 + n1 + 1) mod 400).
  { unfold Y. replace (n400 * 400 + 1 + n100 * 100 + n4 * 4 + n1)
      with ((n100 * 100 + n4 * 4 + n1 + 1) + n400 * 400) by ring.
    apply Z.mod_add. lia. }
  rewrite E4, E100, E400.
  destruct (Z.eqb_spec n1 3) as [-> | N1].
  - destruct (Z.eqb_spec n4 24) as [-> | N4].
    + destruct (Z.eqb_spec n100 3) as [-> | N100].
      * reflexivity.
      * assert (n100 = 0 \/ n100 = 1 \/ n100 = 2) as [-> | [-> | ->]] by lia;
          reflexivity.
    + replace ((3 + 1) mod 4 =? 0) with true by reflexivity.
      replace ((n4 * 4 + 3 + 1) mod 100 =? 0) with false; [reflexivity|].
      symmetry. apply Z.eqb_neq. rewrite Z.mod_small by lia. lia.
  - replace ((n1 + 1) mod 4 =? 0) with false; [reflexivity|].
    symmetry. apply Z.eqb_neq. rewrite Z.mod_small by lia. lia.
Qed.

Lemma days_before_year_cycle (n400 n100 n4 n1 : Z) :
  0 <= n100 <= 4 -> 0 <= n4 <= 24 -> 0 <= n1 <= 4 ->
  n100 * 100 + n4 * 4 + n1 <= 399 -> n4 * 4 + n1 <= 99 -> n1 <= 3 ->
  days_before_year (n400 * 400 + 1 + n100 * 100 + n4 * 4 + n1)
  = n400 * 146097 + n100 * 36524 + n4 * 1461 + n1 * 365.
Proof.
  intros. unfold days_before_year. cbv zeta.
  replace (n400 * 400 + 1 + n100 * 100 + n4 * 4 + n1 - 1)
    with (n400 * 400 + n100 * 100 + n4 * 4 + n1) by ring.
  set (y := n400 * 400 + n100 * 100 + n4 * 4 + n1).
  assert (y / 4 = n400 * 100 + n100 * 25 + n4).
  { symmetry. apply (Z.div_unique y 4 _ n1); unfold y; lia. }
  assert (y / 100 = n400 * 4 + n100).
  { symmetry. apply (Z.div_unique y 100 _ (n4 * 4 + n1)); unfold y; lia. }
  assert (y / 400 = n400).
  { symmetry. apply (Z.div_unique y 400 _ (n100 * 100 + n4 * 4 + n1)); unfold y; lia. }
  unfold y in *. lia.
Qed.


Lemma days_before_month_flag (y m : Z) (leapyear : bool) :
  is_leap y = leapyear ->
  days_before_month y m
  = nth (Z.to_nat m) DAYS_BEFORE_MONTH 0 + (if (2 <? m) && leapyear then 1 else 0).
Proof. intros <-. reflexivity. Qed.

Lemma days_in_month_flag (y m : Z) (leapyear : bool) :
  is_leap y = leapyear ->
  days_in_month y m
  = nth (Z.to_nat m) DAYS_IN_MONTH 0 + (if (m =? 2) && leapyear then 1 else 0).
Proof.
  intros <-. unfold days_in_month.
  destruct (Z.eqb_spec m 2) as [-> | N]; simpl.
  - destruct (is_leap y); reflexivity.
  - lia.
Qed.

(** [ord2ymd] inverts [ymd2ord], and what it returns are the fields of a
    date. *)
Lemma ord2ymd_spec (n : Z) :
  let '(y, m, d) := ord2ymd n in
  ymd2ord y m d = n /\ 1 <= m <= 12 /\ 1 <= d <= days_in_month y m.
Proof.
  unfold ord2ymd, DI400Y, DI100Y, DI4Y. cbv zeta.
  set (n0 := n - 1).
  set (n400 := n0 / 146097). set (r400 := n0 mod 146097).
  set (n100 := r400 / 36524). set (r100 := r400 mod 36524).
  set (n4 := r100 / 1461). set (r4 := r100 mod 1461).
  set (n1 := r4 / 365). set (r1 := r4 mod 365).
  assert (D400 : n0 = 146097 * n400 + r400) by (apply Z.div_mod; lia).
  assert (B400 : 0 <= r400 < 146097) by (apply Z.mod_pos_bound; lia).
  assert (D100 : r400 = 36524 * n100 + r100) by (apply Z.div_mod; lia).
  assert (B100 : 0 <= r100 < 36524) by (apply Z.mod_pos_bound; lia).
  assert (D4 : r100 = 1461 * n4 + r4) by (apply Z.div_mod; lia).
  assert (B4 : 0 <= r4 < 1461) by (apply Z.mod_pos_bound; lia).
  assert (D1 : r4 = 365 * n1 + r1) by (apply Z.div_mod; lia).
  assert (B1 : 0 <= r1 < 365) by (apply Z.mod_pos_bound; lia).
  clearbody n400 r400 n100 r100 n4 r4 n1 r1.
  assert (N100 : 0 <= n100 <= 4) by lia.
  assert (N4 : 0 <= n4 <= 24) by lia.
  assert (N1 : 0 <= n1 <= 4) by lia.
  destruct (Z.eqb_spec n1 4) as [E1 | E1]; simpl orb.
  - (* the last day of a leap year *)
    replace (n400 * 400 + 1 + n100 * 100 + n4 * 4 + n1 - 1)
      with (n400 * 400 + 1 + n100 * 100 + n4 * 4 + 3) by lia.
    assert (L : is_leap (n400 * 400 + 1 + n100 * 100 + n4 * 4 + 3) = true).
    { rewrite is_leap_cycle by lia. simpl.
      destruct (Z.eqb_spec n4 24); destruct (Z.eqb_spec n100 3); simpl; trivial; lia. }
    unfold ymd2ord.
    rewrite (days_before_month_flag _ _ true L), (days_in_month_flag _ _ true L).
    rewrite days_before_year_cycle by lia. simpl. lia.
  - destruct (Z.eqb_spec n100 4) as [E100 | E100].
    + (* the last day of a 400-year cycle *)
      replace (n400 * 400 + 1 + n100 * 100 + n4 * 4 + n1 - 1)
        with (n400 * 400 + 1 + 3 * 100 + 24 * 4 + 3) by lia.
      assert (L : is_leap (n400 * 400 + 1 + 3 * 100 + 24 * 4 + 3) = true).
      { rewrite is_leap_cycle by lia. reflexivity. }
      unfold ymd2ord.
      rewrite (days_before_month_flag _ _ true L), (days_in_month_flag _ _ true L).
      rewrite days_before_year_cycle by lia. simpl. lia.
    + set (leapyear := (n1 =? 3) && (negb (n4 =? 24) || (n100 =? 3))).
      assert (L : is_leap (n400 * 400 + 1 + n100 * 100 + n4 * 4 + n1) = leapyear).
      { apply is_leap_cycle; lia. }
      assert (M : month_day_ok leapyear r1 = true).
      { apply month_day_spec. destruct leapyear; lia. }
      unfold month_day_ok in M.
      destruct (month_day leapyear r1) as [m d].
      repeat (apply andb_true_iff in M; destruct M as [M ?]).
      unfold ymd2ord.
      rewrite (days_before_month_flag _ _ leapyear L), (days_in_month_flag _ _ leapyear L).
      rewrite days_before_year_cycle by lia.
      lia.
Qed.


Lemma toordinal_fromordinal (n : Z) : toordinal (fromordinal n) = n.
Proof.
  unfold toordinal, fromordinal. pose proof (ord2ymd_spec n) as H.
  destruct (ord2ymd n) as [[y m] d]. simpl. apply H.
Qed.

Lemma weekday_fromordinal (n : Z) : weekday (fromordinal n) = (n + 6) mod 7.
Proof. unfold weekday. now rewrite toordinal_fromordinal. Qed.

Lemma weekday_range (d : date) : 0 <= weekday d <= 6.
Proof. unfold weekday. pose proof (Z.mod_pos_bound (toordinal d + 6) 7). lia. Qed.

(** The ordinal of a date that the constructor accepts is in range. *)
Lemma days_before_year_bounds (y : Z) :
  1 <= y <= 9999 -> 0 <= days_before_year y <= 3651694.
Proof.
  intros H. unfold days_before_year. cbv zeta.
  Z.div_mod_to_equations. lia.
Qed.

Lemma days_before_month_bounds (y m d : Z) :
  1 <= m <= 12 -> 1 <= d <= days_in_month y m ->
  1 <= days_before_month y m + d <= 365 + (if is_leap y then 1 else 0).
Proof.
  intros Hm Hd.
  unfold days_before_month, days_in_month, DAYS_BEFORE_MONTH, DAYS_IN_MONTH in *.
  assert (m = 1 \/ m = 2 \/ m = 3 \/ m = 4 \/ m = 5 \/ m = 6 \/ m = 7
          \/ m = 8 \/ m = 9 \/ m = 10 \/ m = 11 \/ m = 12) as C by lia.
  destruct (is_leap y);
    repeat (destruct C as [-> | C]; [simpl in *; lia|]); subst; simpl in *; lia.
Qed.

Lemma toordinal_range (d : date) :
  valid_date d -> 1 <= toordinal d <= MAXORDINAL.
Proof.
  intros (Hy & Hm & Hd). unfold MINYEAR, MAXYEAR in Hy.
  unfold toordinal, ymd2ord, MAXORDINAL.
  pose proof (days_before_month_bounds _ _ _ Hm Hd) as B.
  destruct (Z.eq_dec (year d) 9999) as [E | E].
  - rewrite E in *. change (is_leap 9999) with false in B.
    change (days_before_year 9999) with 3651694. lia.
  - assert (Hy' : 1 <= year d + 1 <= 9999) by lia.
    pose proof (days_before_year_bounds _ Hy') as B1.
    assert (days_before_year (year d) + 365 + (if is_leap (year d) then 1 else 0)
            = days_before_year (year d + 1)) as S.
    { unfold days_before_year, is_leap. cbv zeta.
      replace (year d + 1 - 1) with (year d) by lia.
      destruct (Z.eqb_spec (year d mod 4) 0);
        destruct (Z.eqb_spec (year d mod 100) 0);
        destruct (Z.eqb_spec (year d mod 400) 0); simpl;
        Z.div_mod_to_equations; lia. }
    assert (0 <= days_before_year (year d)).
    { apply days_before_year_bounds. lia. }
    destruct (is_leap (year d)); lia.
Qed.

End DatetimeFacts.

(* ================================================================== *)
(** * Facts about the program *)
(* ================================================================== *)

Import DatetimeFacts.

#[local] Arguments Z.add _ _ : simpl never.
#[local] Arguments Z.sub _ _ : simpl never.
#[local] Arguments Z.mul _ _ : simpl never.

Lemma str_eqb_eq (a b : str) : str_eqb a b = true <-> a = b.
Proof.
  revert b. induction a as [| x a IH]; intros [| y b]; simpl; split;
    try congruence; try discriminate.
  - intros H. apply andb_true_iff in H. destruct H as [H1 H2].
    apply Z.eqb_eq in H1. apply IH in H2. congruence.
  - intros H. injection H as -> ->. rewrite Z.eqb_refl. simpl. now apply IH.
Qed.

Lemma str_eqb_refl (a : str) : str_eqb a a = true.
Proof. now apply str_eqb_eq. Qed.

Lemma str_eqb_neq (a b : str) : str_eqb a b = false <-> a <> b.
Proof.
  split.
  - intros H E. apply str_eqb_eq in E. congruence.
  - intros H. destruct (str_eqb a b) eqn:E; trivial.
    apply str_eqb_eq in E. contradiction.
Qed.

(** ** Dates *)

Lemma date_new_Return (y m d : Z) (x : date) :
  date_new y m d = Return x -> x = mkdate y m d /\ valid_date x.
Proof.
  unfold date_new, valid_date, MINYEAR, MAXYEAR.
  destruct ((1 <=? y) && (y <=? 9999)) eqn:Ey; simpl; [|discriminate].
  destruct ((1 <=? m) && (m <=? 12)) eqn:Em; simpl; [|discriminate].
  destruct ((1 <=? d) && (d <=? days_in_month y m)) eqn:Ed; simpl; [|discriminate].
  intros H. injection H as <-. simpl.
  apply andb_true_iff in Ey, Em, Ed. split; [reflexivity | lia].
Qed.

Lemma date_new_valid (d : date) : valid_date d -> date_new (year d) (month d) (day d) = Return d.
Proof.
  intros (Hy & Hm & Hd). unfold date_new, MINYEAR, MAXYEAR in *.
  replace ((1 <=? year d) && (year d <=? 9999)) with true by (symmetry; apply andb_true_iff; lia).
  replace ((1 <=? month d) && (month d <=? 12)) with true by (symmetry; apply andb_true_iff; lia).
  replace ((1 <=? day d) && (day d <=? days_in_month (year d) (month d))) with true
    by (symmetry; apply andb_true_iff; lia).
  simpl. now destruct d.
Qed.

Lemma date_new_Raise (y m d : Z) (e : exn) :
  date_new y m d = Raise e -> exists msg, e = ValueError msg.
Proof.
  unfold date_new.
  destruct (negb _); [intros H; injection H as <-; eauto|].
  destruct (negb _); [intros H; injection H as <-; eauto|].
  destruct (negb _); [intros H; injection H as <-; eauto|].
  discriminate.
Qed.

Lemma next_occurrence_Return (today b occ : date) :
  next_occurrence today b = Return occ ->
  valid_date occ /\ month occ = month b /\ day occ = day b
  /\ (if date_ltb (mkdate (year today) (month b) (day b)) today
      then year occ = year today + 1 else year occ = year today).
Proof.
  unfold next_occurrence, replace_year.
  destruct (date_new (year today) (month b) (day b)) as [d0 |] eqn:E0; simpl;
    [|discriminate].
  apply date_new_Return in E0. destruct E0 as [-> V0].
  destruct (date_ltb _ today); simpl.
  - intros H. apply date_new_Return in H. destruct H as [-> V]. simpl. auto.
  - intros H. injection H as <-. simpl. auto.
Qed.

Lemma next_occurrence_Raise (today b : date) (e : exn) :
  next_occurrence today b = Raise e -> exists msg, e = ValueError msg.
Proof.
  unfold next_occurrence, replace_year.
  destruct (date_new (year today) (month b) (day b)) as [d0 |] eqn:E0; simpl.
  - destruct (date_ltb d0 today).
    + apply date_new_Raise.
    + discriminate.
  - intros H. injection H as <-. now apply date_new_Raise in E0.
Qed.

(** A birthday on 29 February has no occurrence in a year that is not a
    leap year. *)
Lemma next_occurrence_leap_day (today b : date) :
  month b = 2 -> day b = 29 -> is_leap (year today) = false ->
  exists msg, next_occurrence today b = Raise (ValueError msg).
Proof.
  intros Hm Hd L. unfold next_occurrence, replace_year, date_new.
  rewrite Hm, Hd.
  destruct (negb ((MINYEAR <=? year today) && (year today <=? MAXYEAR))); simpl; eauto.
  unfold days_in_month. rewrite L. simpl. eauto.
Qed.

Lemma add_days_in_range (d : date) (k : Z) :
  0 < toordinal d + k <= MAXORDINAL ->
  exists d', add_days d k = Return d'
             /\ d' = fromordinal (toordinal d + k)
             /\ sub_days d' d = k
             /\ weekday d' = (weekday d + k) mod 7.
Proof.
  intros H. unfold add_days.
  replace ((0 <? toordinal d + k) && (toordinal d + k <=? MAXORDINAL)) with true
    by (symmetry; apply andb_true_iff; lia).
  eexists. split; [reflexivity|]. split; [reflexivity|]. split.
  - unfold sub_days. rewrite toordinal_fromordinal. lia.
  - rewrite weekday_fromordinal. unfold weekday.
    rewrite Z.add_mod_idemp_l by lia. f_equal. lia.
Qed.

(** The rollover: a Saturday moves two days, a Sunday one day, both to a
    Monday; the other days stay.  It never leaves the range of dates, the
    last date being a Friday. *)
Lemma roll_weekend_spec (d : date) :
  valid_date d ->
  exists d', roll_weekend d = Return d'
    /\ (weekday d = 5 -> add_days d 2 = Return d' /\ sub_days d' d = 2 /\ weekday d' = 0)
    /\ (weekday d = 6 -> add_days d 1 = Return d' /\ sub_days d' d = 1 /\ weekday d' = 0)
    /\ (weekday d <= 4 -> d' = d).
Proof.
  intros V. pose proof (toordinal_range d V) as R.
  pose proof (weekday_range d) as W. unfold MAXORDINAL in R.
  unfold roll_weekend, find_next_weekday.
  destruct (Z.leb_spec 5 (weekday d)) as [H5 | H5].
  - replace (0 - weekday d <=? 0) with true by (symmetry; apply Z.leb_le; lia).
    assert (B : 0 < toordinal d + (0 - weekday d + 7) <= MAXORDINAL).
    { unfold MAXORDINAL. unfold weekday in *. Z.div_mod_to_equations. lia. }
    destruct (add_days_in_range d _ B) as (d' & E & _ & S & Wd).
    exists d'. split; [exact E|].
    split; [|split]; intros Hw; try lia.
    + rewrite Hw in *. split; [exact E|]. split; [exact S|]. rewrite Wd. reflexivity.
    + rewrite Hw in *. split; [exact E|]. split; [exact S|]. rewrite Wd. reflexivity.
  - exists d. split; [reflexivity|]. split; [|split]; intros; try lia. reflexivity.
Qed.

(** ** The loop of the birthday query *)

(** What one record adds to the result, when its occurrence is [occ]. *)
Definition entry_at (pad : bool) (today : date) (days : Z) (record : RecordObj)
    (occ : date) : list congratulation :=
  if in_window today days occ then
    match roll_weekend occ with
    | Return d => [mkCongratulation (Name_value (name record)) (strftime_dmY pad d)]
    | Raise _ => []
    end
  else [].

Definition entry_of (pad : bool) (today : date) (days : Z) (record : RecordObj)
    : list congratulation :=
  match birthday record with
  | Some b =>
      match next_occurrence today (Birthday_value b) with
      | Return occ => entry_at pad today days record occ
      | Raise _ => []
      end
  | None => []
  end.

(** A turn of the loop either raises the [ValueError] of [next_occurrence],
    or appends the entry of the record. *)
Lemma upcoming_step_cases (pad : bool) (today : date) (days : Z)
    (acc : list congratulation) (record : RecordObj) (b : Birthday) :
  birthday record = Some b ->
  (exists msg, next_occurrence today (Birthday_value b) = Raise (ValueError msg)
               /\ upcoming_step pad today days acc record = Raise (ValueError msg))
  \/ (exists occ, next_occurrence today (Birthday_value b) = Return occ
                  /\ upcoming_step pad today days acc record
                     = Return (acc ++ entry_at pad today days record occ)).
Proof.
  intros Hb. unfold upcoming_step. rewrite Hb.
  destruct (next_occurrence today (Birthday_value b)) as [occ | e] eqn:E; simpl.
  - right. exists occ. split; [reflexivity|].
    apply next_occurrence_Return in E. destruct E as [V _].
    destruct (roll_weekend_spec occ V) as (d' & R & _).
    unfold entry_at. destruct (in_window today days occ).
    + rewrite R. reflexivity.
    + now rewrite app_nil_r.
  - left. destruct (next_occurrence_Raise _ _ _ E) as [msg ->]. eauto.
Qed.

Lemma prepare_users_In (records : list RecordObj) (record : RecordObj) :
  In record (prepare_users records)
  <-> In record records /\ exists b, birthday record = Some b.
Proof.
  unfold prepare_users. rewrite filter_In. split; intros [H1 H2]; split; trivial.
  - destruct (birthday record); [eauto | discriminate].
  - destruct H2 as [b ->]. reflexivity.
Qed.

(** When every record has an occurrence, the loop returns, with the entries
    of the records in their order. *)
Lemma upcoming_loop_Return (pad : bool) (today : date) (days : Z)
    (records : list RecordObj) :
  (forall r, In r records ->
     exists b occ, birthday r = Some b
                   /\ next_occurrence today (Birthday_value b) = Return occ) ->
  forall acc,
    upcoming_loop pad today days acc records
    = Return (acc ++ flat_map (entry_of pad today days) records).
Proof.
  induction records as [| r rest IH]; intros H acc; simpl.
  - now rewrite app_nil_r.
  - destruct (H r (or_introl eq_refl)) as (b & occ & Hb & Ho).
    destruct (upcoming_step_cases pad today days acc r b Hb)
      as [(msg & E & _) | (occ' & E & S)]; [congruence|].
    rewrite S. simpl. rewrite IH by (intros; apply H; now right).
    unfold entry_of at 2. rewrite Hb, E. now rewrite app_assoc.
Qed.

(** A record with a birthday and no occurrence makes the loop raise. *)
Lemma upcoming_loop_Raise (pad : bool) (today : date) (days : Z)
    (records : list RecordObj) (r : RecordObj) (b : Birthday) (msg : str) :
  (forall r', In r' records -> exists b', birthday r' = Some b') ->
  In r records -> birthday r = Some b ->
  next_occurrence today (Birthday_value b) = Raise (ValueError msg) ->
  forall acc,
    exists msg', upcoming_loop pad today days acc records = Raise (ValueError msg').
Proof.
  intros Hall Hin Hb Hraise.
  induction records as [| r0 rest IH]; intros acc; [contradiction|].
  simpl. destruct (Hall r0 (or_introl eq_refl)) as [b0 Hb0].
  destruct (upcoming_step_cases pad today days acc r0 b0 Hb0)
    as [(msg0 & E & S) | (occ & E & S)]; rewrite S; simpl.
  - eauto.
  - destruct Hin as [-> | Hin]; [congruence|].
    apply IH; trivial. intros; apply Hall; now right.
Qed.

Lemma entry_of_name (pad : bool) (today : date) (days : Z) (record : RecordObj)
    (c : congratulation) :
  In c (entry_of pad today days record) -> cg_name c = Name_value (name record).
Proof.
  unfold entry_of, entry_at.
  destruct (birthday record); [|contradiction].
  destruct (next_occurrence _ _); [|contradiction].
  destruct (in_window _ _ _); [|contradiction].
  destruct (roll_weekend _); [|contradiction].
  intros [<- | []]. reflexivity.
Qed.

Lemma in_window_iff (today : date) (days : Z) (d : date) :
  in_window today days d = true <-> 0 <= sub_days d today <= days.
Proof. unfold in_window. rewrite andb_true_iff. lia. Qed.

Lemma entry_of_nonempty (pad : bool) (today : date) (days : Z)
    (record : RecordObj) (b : Birthday) (occ : date) :
  birthday record = Some b ->
  next_occurrence today (Birthday_value b) = Return occ ->
  (exists c, In c (entry_of pad today days record))
  <-> 0 <= sub_days occ today <= days.
Proof.
  intros Hb Ho. unfold entry_of, entry_at. rewrite Hb, Ho.
  rewrite <- in_window_iff.
  apply next_occurrence_Return in Ho. destruct Ho as [V _].
  destruct (roll_weekend_spec occ V) as (d' & R & _). rewrite R.
  destruct (in_window today days occ); split; try discriminate; eauto.
  - intros _. eexists. now left.
  - intros [c Hc]. contradiction.
Qed.

(** ** The book *)

(** The books the commands build: every record under its own name, and no
    name twice. *)
Definition book_ok (book : AddressBook) : Prop :=
  NoDup (map fst book)
  /\ forall k r, In (k, r) book -> k = Name_value (name r).

Lemma book_ok_names (book : AddressBook) :
  book_ok book ->
  NoDup (map (fun r => Name_value (name r)) (values book)).
Proof.
  intros [N K]. unfold values. rewrite map_map.
  replace (map (fun x => Name_value (name (snd x))) book) with (map fst book); trivial.
  apply map_ext_in. intros [k r] Hin. simpl. now apply K.
Qed.

Lemma NoDup_map_eq {A B : Type} (f : A -> B) (l : list A) (x y : A) :
  NoDup (map f l) -> In x l -> In y l -> f x = f y -> x = y.
Proof.
  induction l as [| a l IH]; simpl; intros N Hx Hy E; [contradiction|].
  inversion N as [| ? ? Na Nl]; subst.
  destruct Hx as [-> | Hx], Hy as [-> | Hy]; trivial.
  - exfalso. apply Na. rewrite E. now apply in_map.
  - exfalso. apply Na. rewrite <- E. now apply in_map.
  - now apply IH.
Qed.

(* ================================================================== *)
(** * The birthday query *)
(* ================================================================== *)

(** Every record with a birthday has an occurrence for this [today]: no
    29 February in a year without one, no year after 9999. *)
Definition occurrences_exist (today : date) (book : AddressBook) : Prop :=
  forall r b, In r (values book) -> birthday r = Some b ->
    exists occ, next_occurrence today (Birthday_value b) = Return occ.

Lemma get_upcoming_birthdays_Return (host : Host) (book : AddressBook) (days : Z) :
  occurrences_exist (dt_date (clock host)) book ->
  get_upcoming_birthdays host book days
  = Return (flat_map (entry_of (pads_year host) (dt_date (clock host)) days)
                     (prepare_users (values book))).
Proof.
  intros H. unfold get_upcoming_birthdays, find_upcoming_birthdays.
  rewrite upcoming_loop_Return; [reflexivity|].
  intros r Hr. apply prepare_users_In in Hr. destruct Hr as [Hin [b Hb]].
  destruct (H r b Hin Hb) as [occ Ho]. eauto.
Qed.

(** Examples: a clock reading on a day, at noon. *)
Definition noon (y m d : Z) : datetime := mkdatetime (mkdate y m d) 12 0 0 0.

Definition contact (name_ : string) (b : date) : str * RecordObj :=
  (lit name_, mkRecord (mkName (lit name_)) [] (Some (mkBirthday b))).

Definition book_Bob : AddressBook := [contact "Bob" (mkdate 2024 6 15)].

Definition book_Cleo : AddressBook := [contact "Cleo" (mkdate 1990 1 2)].

Definition book_leap : AddressBook :=
  [contact "Ann" (mkdate 1990 3 1); contact "Leo" (mkdate 2000 2 29)].

(** ** C1 *)

(** The property as the specification states it: the result does not depend on
    what the system clock reads. *)
Definition clock_independent : Prop :=
  forall (book : AddressBook) (days : Z) (h1 h2 : Host),
    pads_year h1 = pads_year h2 ->
    get_upcoming_birthdays h1 book days = get_upcoming_birthdays h2 book days.

(** C1, as stated, fails: [get_upcoming_birthdays] has no date argument, it
    reads the system clock, and the same book with the same window gives Bob
    on 10.06.2024 and nobody on 10.07.2024. *)
Lemma clock_dependence : ~ clock_independent.
Proof.
  intros H.
  specialize (H book_Bob 7 (mkHost (noon 2024 6 10) false)
                (mkHost (noon 2024 7 10) false) eq_refl).
  vm_compute in H. discriminate H.
Qed.

(** C1, amended: the result of [get_upcoming_birthdays] is a function of the
    book, the window and the calendar date that the system clock reads at
    the call (on one host): two calls that read the same date return the
    same sequence, whatever the time of day. *)
Theorem upcoming_birthdays_same_day (book : AddressBook) (days : Z) (h1 h2 : Host) :
  dt_date (clock h1) = dt_date (clock h2) ->
  pads_year h1 = pads_year h2 ->
  get_upcoming_birthdays h1 book days = get_upcoming_birthdays h2 book days.
Proof.
  intros Hd Hp. unfold get_upcoming_birthdays, find_upcoming_birthdays.
  now rewrite Hd, Hp.
Qed.

Lemma upcoming_birthdays_same_day_witness :
  get_upcoming_birthdays (mkHost (mkdatetime (mkdate 2024 6 10) 8 30 0 0) false) book_Bob 7
  = get_upcoming_birthdays (mkHost (mkdatetime (mkdate 2024 6 10) 23 59 59 0) false) book_Bob 7.
Proof.
  apply (upcoming_birthdays_same_day book_Bob 7
           (mkHost (mkdatetime (mkdate 2024 6 10) 8 30 0 0) false)
           (mkHost (mkdatetime (mkdate 2024 6 10) 23 59 59 0) false));
    reflexivity.
Defined.

(** ** C2 *)

(** C2: when the query returns, every contact whose occurrence is in the
    window has an entry whose date is the occurrence moved by
    [timedelta(days=2)] from a Saturday and by [timedelta(days=1)] from a
    Sunday, a Monday in both cases, and the occurrence itself from Monday to
    Friday.  With the clock on 10.06.2024, Bob, born on 15.06.2024, is
    returned with 17.06.2024. *)
Theorem weekend_rollover (host : Host) (book : AddressBook) (days : Z) :
  occurrences_exist (dt_date (clock host)) book ->
  (exists result,
     get_upcoming_birthdays host book days = Return result
     /\ forall r b occ,
          In r (values book) -> birthday r = Some b ->
          next_occurrence (dt_date (clock host)) (Birthday_value b) = Return occ ->
          0 <= sub_days occ (dt_date (clock host)) <= days ->
          exists d,
            In (mkCongratulation (Name_value (name r))
                                 (strftime_dmY (pads_year host) d)) result
            /\ (weekday occ = 5 ->
                add_days occ 2 = Return d /\ sub_days d occ = 2 /\ weekday d = 0)
            /\ (weekday occ = 6 ->
                add_days occ 1 = Return d /\ sub_days d occ = 1 /\ weekday d = 0)
            /\ (weekday occ <= 4 -> d = occ))
  /\ (forall h mi s us pad,
        weekday (mkdate 2024 6 10) = 0 /\ weekday (mkdate 2024 6 15) = 5
        /\ get_upcoming_birthdays
             (mkHost (mkdatetime (mkdate 2024 6 10) h mi s us) pad) book_Bob 7
           = Return [mkCongratulation (lit "Bob") (lit "17.06.2024")]).
Proof.
  intros Hocc. split.
  - rewrite get_upcoming_birthdays_Return by assumption.
    eexists. split; [reflexivity|].
    intros r b occ Hin Hb Ho Hw.
    pose proof Ho as Hv. apply next_occurrence_Return in Hv. destruct Hv as [V _].
    destruct (roll_weekend_spec occ V) as (d & R & Sat & Sun & Week).
    exists d. split; [|auto].
    apply in_flat_map. exists r. split.
    + apply prepare_users_In. eauto.
    + unfold entry_of, entry_at. rewrite Hb, Ho, R.
      apply in_window_iff in Hw. rewrite Hw. now left.
  - intros h mi s us [|]; repeat split; vm_compute; reflexivity.
Qed.

Lemma weekend_rollover_witness :
  occurrences_exist (dt_date (clock (mkHost (noon 2024 6 10) false))) book_Bob
  /\ exists result,
       get_upcoming_birthdays (mkHost (noon 2024 6 10) false) book_Bob 7 = Return result.
Proof.
  assert (H : occurrences_exist (dt_date (clock (mkHost (noon 2024 6 10) false))) book_Bob).
  { intros r b [<- | []] Hb. injection Hb as <-. eexists. vm_compute. reflexivity. }
  split; [exact H|].
  destruct (weekend_rollover (mkHost (noon 2024 6 10) false) book_Bob 7 H)
    as [(result & E & _) _].
  exists result. exact E.
Defined.

(** ** C3 *)

(** C3: when the query returns (every birthday has an occurrence), a contact
    with a birthday is in the result exactly when its occurrence is between
    0 and [days] days after today, both ends included; the occurrence has the
    month and day of the birthday, in the year of today, or in the next year
    exactly when that date is before today.  With the clock on 30.12.2024,
    Cleo, born on 02.01.1990, has the occurrence 02.01.2025, three days
    ahead, and is returned for a window of 7 days. *)
Theorem window_inclusion (host : Host) (book : AddressBook) (days : Z) :
  book_ok book ->
  occurrences_exist (dt_date (clock host)) book ->
  (exists result,
     get_upcoming_birthdays host book days = Return result
     /\ forall r b,
          In r (values book) -> birthday r = Some b ->
          exists occ,
            next_occurrence (dt_date (clock host)) (Birthday_value b) = Return occ
            /\ month occ = month (Birthday_value b)
            /\ day occ = day (Birthday_value b)
            /\ year occ
               = (if date_ltb (mkdate (year (dt_date (clock host)))
                                      (month (Birthday_value b))
                                      (day (Birthday_value b)))
                              (dt_date (clock host))
                  then year (dt_date (clock host)) + 1
                  else year (dt_date (clock host)))
            /\ (In (Name_value (name r)) (map cg_name result)
                <-> 0 <= sub_days occ (dt_date (clock host)) <= days))
  /\ (forall h mi s us pad,
        next_occurrence (mkdate 2024 12 30) (mkdate 1990 1 2)
        = Return (mkdate 2025 1 2)
        /\ sub_days (mkdate 2025 1 2) (mkdate 2024 12 30) = 3
        /\ get_upcoming_birthdays
             (mkHost (mkdatetime (mkdate 2024 12 30) h mi s us) pad) book_Cleo 7
           = Return [mkCongratulation (lit "Cleo") (lit "02.01.2025")]).
Proof.
  intros Hok Hocc. split.
  - rewrite get_upcoming_birthdays_Return by assumption.
    eexists. split; [reflexivity|].
    intros r b Hin Hb. destruct (Hocc r b Hin Hb) as [occ Ho].
    exists occ. split; [exact Ho|].
    pose proof (next_occurrence_Return _ _ _ Ho) as (V & Hm & Hd & Hy).
    split; [exact Hm|]. split; [exact Hd|]. split.
    { destruct (date_ltb _ _); exact Hy. }
    rewrite <- (entry_of_nonempty (pads_year host) _ days r b occ Hb Ho).
    rewrite in_map_iff. split.
    + intros (c & Hc & Hin'). apply in_flat_map in Hin'.
      destruct Hin' as (r' & Hr' & Hc'). apply prepare_users_In in Hr'.
      destruct Hr' as [Hr' _].
      pose proof (entry_of_name _ _ _ _ _ Hc') as Hn.
      assert (r' = r) as ->.
      { apply (NoDup_map_eq (fun x => Name_value (name x)) (values book));
          trivial.
        - now apply book_ok_names.
        - congruence. }
      eauto.
    + intros [c Hc]. exists c. split.
      * now apply entry_of_name in Hc.
      * apply in_flat_map. exists r. split; trivial.
        apply prepare_users_In. eauto.
  - intros h mi s us [|]; repeat split; vm_compute; reflexivity.
Qed.

Lemma book_Cleo_ok : book_ok book_Cleo.
Proof.
  split.
  - simpl. constructor; [intros [] | constructor].
  - intros k r [H | []]. injection H as <- <-. reflexivity.
Defined.

Lemma window_inclusion_witness :
  book_ok book_Cleo
  /\ occurrences_exist (dt_date (clock (mkHost (noon 2024 12 30) false))) book_Cleo
  /\ exists result,
       get_upcoming_birthdays (mkHost (noon 2024 12 30) false) book_Cleo 7
       = Return result.
Proof.
  assert (H : occurrences_exist (dt_date (clock (mkHost (noon 2024 12 30) false)))
                book_Cleo).
  { intros r b [<- | []] Hb. injection Hb as <-. eexists. vm_compute. reflexivity. }
  split; [exact book_Cleo_ok|]. split; [exact H|].
  destruct (window_inclusion (mkHost (noon 2024 12 30) false) book_Cleo 7
              book_Cleo_ok H) as [(result & E & _) _].
  exists result. exact E.
Defined.

(** ** C5 *)

(** C5: a contact born on 29 February makes the query raise when the year
    of today is not a leap year: [replace] raises [ValueError], nothing
    clamps the date or skips the contact, and no result is returned. *)
Theorem leap_day_raises (host : Host) (book : AddressBook) (days : Z)
    (r : RecordObj) (b : Birthday) :
  In r (values book) -> birthday r = Some b ->
  month (Birthday_value b) = 2 -> day (Birthday_value b) = 29 ->
  is_leap (year (dt_date (clock host))) = false ->
  exists msg, get_upcoming_birthdays host book days = Raise (ValueError msg).
Proof.
  intros Hin Hb Hm Hd L.
  destruct (next_occurrence_leap_day (dt_date (clock host)) _ Hm Hd L) as [msg E].
  unfold get_upcoming_birthdays, find_upcoming_birthdays.
  apply (upcoming_loop_Raise _ _ _ _ r b msg); trivial.
  - intros r' Hr'. now apply prepare_users_In in Hr'.
  - apply prepare_users_In. eauto.
Qed.

Lemma leap_day_raises_witness :
  exists msg,
    get_upcoming_birthdays (mkHost (noon 2023 2 20) false) book_leap 7
    = Raise (ValueError msg).
Proof.
  apply (leap_day_raises (mkHost (noon 2023 2 20) false) book_leap 7
           (snd (contact "Leo" (mkdate 2000 2 29)))
           (mkBirthday (mkdate 2000 2 29))).
  - simpl. right. left. reflexivity.
  - reflexivity.
  - reflexivity.
  - reflexivity.
  - vm_compute. reflexivity.
Defined.

(* ================================================================== *)
(** * Phones, records and the add command *)
(* ================================================================== *)

(** The test of [Phone.__init__], [add_phone] and [edit_phone], passed. *)
Definition valid_phone (s : str) : bool := isdigit s && (len s =? 10).

Lemma valid_phone_test (s : str) :
  negb (isdigit s) || negb (len s =? 10) = negb (valid_phone s).
Proof. unfold valid_phone. now rewrite negb_andb. Qed.

Lemma valid_phone_iff (s : str) :
  valid_phone s = true <-> len s = 10 /\ Forall (fun c => isdigit_char c = true) s.
Proof.
  unfold valid_phone, isdigit. rewrite andb_true_iff, Z.eqb_eq.
  destruct s as [| c s'].
  - split; [intros [H _]; discriminate | intros [H _]; discriminate].
  - rewrite forallb_forall, Forall_forall. tauto.
Qed.

(** [Phone(s)] succeeds exactly on the strings that pass the test. *)
Lemma Phone_init_valid (s : str) :
  (valid_phone s = true <-> Phone_init s = Return (mkPhone s))
  /\ (valid_phone s = false <-> raises (Phone_init s)).
Proof.
  unfold Phone_init, raises. rewrite valid_phone_test.
  destruct (valid_phone s); simpl; repeat split; auto; try discriminate;
    eauto.
  intros [e H]. discriminate H.
Qed.

Lemma ascii_digits_table :
  forallb (fun c => Bool.eqb (isdigit_char c) (is_ascii_digit c)) (upto 128) = true.
Proof. vm_compute. reflexivity. Qed.

(** Among the ASCII characters the digits are 0 to 9. *)
Lemma isdigit_char_ascii (c : Z) :
  0 <= c < 128 -> isdigit_char c = is_ascii_digit c.
Proof.
  intros H. pose proof ascii_digits_table as T.
  rewrite forallb_forall in T. apply eqb_prop, T, in_upto. simpl. lia.
Qed.

Lemma set_phones_same (self : RecordObj) : set_phones self (phones self) = self.
Proof. now destruct self. Qed.

(** ** C4 *)

(** Ten times the superscript two, U+00B2. *)
Definition superscript_twos : str := repeat 178 10.

(** C4, as stated, fails: [str.isdigit] holds of more than the decimal
    digits.  Ten superscript twos are a phone for [Phone] and for
    [add_phone], and none of the ten characters is a decimal digit, ASCII or
    not. *)
Lemma superscript_phone_accepted :
  Phone_init superscript_twos = Return (mkPhone superscript_twos)
  /\ add_phone (mkRecord (mkName (lit "Ann")) [] None) superscript_twos
     = (Return tt, mkRecord (mkName (lit "Ann")) [mkPhone superscript_twos] None)
  /\ len superscript_twos = 10
  /\ existsb isdecimal_char superscript_twos = false
  /\ existsb is_ascii_digit superscript_twos = false.
Proof. repeat split; vm_compute; reflexivity. Qed.

(** C4, amended: [Phone(s)] succeeds, storing [s] unchanged, exactly when [s]
    has 10 characters and each of them is a digit for [str.isdigit] (a
    character of Numeric_Type Digit or Decimal); otherwise it raises
    [ValueError] with the message of an invalid phone.  [add_phone] accepts
    and refuses the same strings, appending the phone or leaving the record
    as it was.  Among ASCII characters the digits are 0 to 9. *)
Theorem phone_validation (s : str) (self : RecordObj) :
  (Phone_init s = Return (mkPhone s)
   <-> len s = 10 /\ Forall (fun c => isdigit_char c = true) s)
  /\ (Phone_init s = Return (mkPhone s)
      \/ Phone_init s = Raise (ValueError (lit "Invalid phone number format")))
  /\ (add_phone self s = (Return tt, set_phones self (phones self ++ [mkPhone s]))
      <-> len s = 10 /\ Forall (fun c => isdigit_char c = true) s)
  /\ (add_phone self s = (Return tt, set_phones self (phones self ++ [mkPhone s]))
      \/ add_phone self s
         = (Raise (ValueError (lit "Invalid phone number format")), self))
  /\ (forall c, 0 <= c < 128 -> isdigit_char c = is_ascii_digit c).
Proof.
  rewrite <- valid_phone_iff.
  unfold add_phone, Phone_init. rewrite valid_phone_test.
  assert (A := isdigit_char_ascii).
  destruct (valid_phone s); simpl; repeat split; auto; discriminate.
Qed.

(** ** C6 *)

Lemma edit_phone_loop_found (l1 l2 : list Phone) (p : Phone) (old_phone new_phone : str) :
  (forall q, In q l1 -> Phone_value q <> old_phone) ->
  Phone_value p = old_phone ->
  edit_phone_loop (l1 ++ p :: l2) old_phone new_phone
  = if valid_phone new_phone
    then (Return true, l1 ++ mkPhone new_phone :: l2)
    else (Raise (ValueError (lit "Invalid new phone number format")), l1 ++ p :: l2).
Proof.
  intros H1 Hp. induction l1 as [| q l1 IH]; simpl.
  - rewrite Hp, str_eqb_refl, valid_phone_test.
    destruct (valid_phone new_phone); reflexivity.
  - replace (str_eqb (Phone_value q) old_phone) with false
      by (symmetry; apply str_eqb_neq, H1; now left).
    rewrite IH by (intros; apply H1; now right).
    destruct (valid_phone new_phone); reflexivity.
Qed.

Lemma edit_phone_loop_absent (ps : list Phone) (old_phone new_phone : str) :
  (forall q, In q ps -> Phone_value q <> old_phone) ->
  edit_phone_loop ps old_phone new_phone = (Return false, ps).
Proof.
  intros H. induction ps as [| q ps IH]; simpl; [reflexivity|].
  replace (str_eqb (Phone_value q) old_phone) with false
    by (symmetry; apply str_eqb_neq, H; now left).
  rewrite IH by (intros; apply H; now right). reflexivity.
Qed.

(** C6: [edit_phone] puts the new value in the first entry equal to the old
    one, where it stands, and keeps all other entries; when no entry is equal
    to the old value it raises [ValueError] (old phone number not found) and
    the phones are unchanged; when an entry is found and the new value is not
    one that [Phone] accepts it raises [ValueError] (invalid new phone number
    format) and the phones are unchanged. *)
Theorem edit_phone_spec (self : RecordObj) (old_phone new_phone : str) :
  (forall l1 p l2,
     phones self = l1 ++ p :: l2 ->
     (forall q, In q l1 -> Phone_value q <> old_phone) ->
     Phone_value p = old_phone ->
     (Phone_init new_phone = Return (mkPhone new_phone) ->
      edit_phone self old_phone new_phone
      = (Return tt, set_phones self (l1 ++ mkPhone new_phone :: l2)))
     /\ (raises (Phone_init new_phone) ->
         edit_phone self old_phone new_phone
         = (Raise (ValueError (lit "Invalid new phone number format")), self)))
  /\ ((forall q, In q (phones self) -> Phone_value q <> old_phone) ->
      edit_phone self old_phone new_phone
      = (Raise (ValueError (lit "Old phone number not found")), self)).
Proof.
  split.
  - intros l1 p l2 E H1 Hp. unfold edit_phone.
    rewrite E, (edit_phone_loop_found l1 l2 p old_phone new_phone H1 Hp).
    split; intros V; apply Phone_init_valid in V; rewrite V; simpl;
      [reflexivity|].
    rewrite <- E, set_phones_same. reflexivity.
  - intros H. unfold edit_phone. rewrite (edit_phone_loop_absent _ _ _ H).
    simpl. now rewrite set_phones_same.
Qed.

(** ** C7 *)

(** C7, as stated, fails: [Record.__init__] has no test of the name, and
    the empty string gives a record like any other. *)
Lemma empty_name_accepted :
  Record_init [] = Return (mkRecord (mkName []) [] None)
  /\ ~ raises (Record_init []).
Proof.
  split; [reflexivity|]. intros [e H]. discriminate H.
Qed.

(** C7, amended: [Record(name)] never fails, whatever the name, the empty
    string included; the new record has that name, no phones and no
    birthday. *)
Theorem Record_init_spec (name_ : str) :
  exists r, Record_init name_ = Return r
            /\ Name_value (name r) = name_ /\ phones r = [] /\ birthday r = None.
Proof. eexists. repeat split. Qed.

(** ** The book under [setitem] *)

Lemma find_setitem (key : str) (value : RecordObj) (book : AddressBook) :
  find key (setitem key value book) = Some value.
Proof.
  induction book as [| [k r] rest IH]; simpl.
  - now rewrite str_eqb_refl.
  - destruct (str_eqb k key) eqn:E; simpl; rewrite E; trivial.
Qed.

Lemma setitem_setitem (key : str) (v w : RecordObj) (book : AddressBook) :
  setitem key w (setitem key v book) = setitem key w book.
Proof.
  induction book as [| [k r] rest IH]; simpl.
  - now rewrite str_eqb_refl.
  - destruct (str_eqb k key) eqn:E; simpl; rewrite E; trivial. now rewrite IH.
Qed.

Lemma setitem_absent (key : str) (value : RecordObj) (book : AddressBook) :
  find key book = None -> setitem key value book = book ++ [(key, value)].
Proof.
  induction book as [| [k r] rest IH]; simpl; trivial.
  destruct (str_eqb k key); [discriminate|]. intros H. now rewrite IH.
Qed.

Lemma setitem_same (key : str) (value : RecordObj) (book : AddressBook) :
  find key book = Some value -> setitem key value book = book.
Proof.
  induction book as [| [k r] rest IH]; simpl; [discriminate|].
  destruct (str_eqb k key).
  - intros H. now injection H as ->.
  - intros H. now rewrite IH.
Qed.

Lemma find_In (key : str) (value : RecordObj) (book : AddressBook) :
  find key book = Some value -> In (key, value) book.
Proof.
  induction book as [| [k r] rest IH]; simpl; [discriminate|].
  destruct (str_eqb k key) eqn:E.
  - intros H. injection H as ->. apply str_eqb_eq in E. subst. now left.
  - intros H. right. now apply IH.
Qed.

Lemma find_None_keys (key : str) (book : AddressBook) :
  find key book = None -> ~ In key (map fst book).
Proof.
  induction book as [| [k r] rest IH]; simpl; [tauto|].
  destruct (str_eqb k key) eqn:E; [discriminate|].
  intros H [K | K].
  - subst. rewrite str_eqb_refl in E. discriminate.
  - now apply IH.
Qed.

Lemma setitem_keys (key : str) (value : RecordObj) (book : AddressBook) :
  map fst (setitem key value book)
  = match find key book with
    | Some _ => map fst book
    | None => map fst book ++ [key]
    end.
Proof.
  induction book as [| [k r] rest IH]; simpl; trivial.
  destruct (str_eqb k key) eqn:E; simpl; trivial.
  rewrite IH. now destruct (find key rest).
Qed.

Lemma In_setitem (key k : str) (value r : RecordObj) (book : AddressBook) :
  In (k, r) (setitem key value book) ->
  (k = key /\ r = value) \/ In (k, r) book.
Proof.
  induction book as [| [k0 r0] rest IH]; simpl.
  - intros [H | []]. injection H as <- <-. now left.
  - destruct (str_eqb k0 key) eqn:E; simpl.
    + intros [H | H]; [|tauto]. injection H as <- <-.
      apply str_eqb_eq in E. now left.
    + intros [H | H]; [tauto|]. destruct (IH H); tauto.
Qed.

(** Storing a record under its own name keeps the book well formed. *)
Lemma setitem_book_ok (key : str) (value : RecordObj) (book : AddressBook) :
  book_ok book -> key = Name_value (name value) ->
  book_ok (setitem key value book).
Proof.
  intros [N K] E. split.
  - rewrite setitem_keys. destruct (find key book) eqn:F; trivial.
    apply NoDup_app; trivial.
    + repeat constructor. intros [].
    + intros k Hk [<- | []]. now apply (find_None_keys _ _ F).
  - intros k r H. apply In_setitem in H. destruct H as [[-> ->] | H]; auto.
Qed.

(** The books that [add_contact] builds from the empty one are well
    formed. *)
Lemma add_contact_book_ok (args : list str) (book : AddressBook) :
  book_ok book -> book_ok (snd (add_contact args book)).
Proof.
  intros Hok.
  assert (B : book_ok (snd (add_contact_body args book))).
  { unfold add_contact_body.
    destruct args as [| name_ [| phone rest]]; trivial.
    unfold addOrGet.
    destruct (find name_ book) as [r |] eqn:F; simpl.
    - destruct phone as [| c phone']; trivial.
      assert (Hn : name_ = Name_value (name r)).
      { destruct Hok as [_ K]. now apply K, find_In. }
      unfold add_phone.
      destruct (negb (isdigit (c :: phone')) || negb (len (c :: phone') =? 10)).
      + simpl. exact Hok.
      + destruct (Phone_init (c :: phone')); simpl;
          [now apply setitem_book_ok | exact Hok].
    - assert (Hnew : book_ok (add_record (mkRecord (mkName name_) [] None) book)).
      { now apply setitem_book_ok. }
      destruct phone as [| c phone']; trivial.
      unfold add_phone.
      destruct (negb (isdigit (c :: phone')) || negb (len (c :: phone') =? 10)).
      + simpl. exact Hnew.
      + destruct (Phone_init (c :: phone')); simpl;
          [now apply setitem_book_ok | exact Hnew]. }
  unfold add_contact, input_error.
  destruct (add_contact_body args book) as [[v | e] book']; simpl in *; trivial.
  destruct e; trivial.
Qed.

Lemma empty_book_ok : book_ok [].
Proof. split; [constructor | intros k r []]. Qed.

(** ** C8 *)

(** C8: the find-or-create of [add_contact] is idempotent.  A first call
    returns a record that is then stored under the name; a second call
    returns that same record and leaves the book as it is.  In general a
    call on a name that is stored returns the stored record, with the phones
    and the birthday it has, and changes nothing; [add_contact] on such a
    name appends the new phone to the phones of the stored record. *)
Theorem addOrGet_idempotent (name_ : str) (book : AddressBook) :
  (exists r1 msg1,
     addOrGet name_ book = (Return (r1, msg1), snd (addOrGet name_ book))
     /\ find name_ (snd (addOrGet name_ book)) = Some r1
     /\ addOrGet name_ (snd (addOrGet name_ book))
        = (Return (r1, lit "Contact updated."), snd (addOrGet name_ book)))
  /\ (forall book' r,
        find name_ book' = Some r ->
        addOrGet name_ book' = (Return (r, lit "Contact updated."), book'))
  /\ (forall book' r phone rest,
        find name_ book' = Some r -> valid_phone phone = true ->
        add_contact (name_ :: phone :: rest) book'
        = (lit "Contact updated.",
           setitem name_ (set_phones r (phones r ++ [mkPhone phone])) book')).
Proof.
  assert (G : forall book' r, find name_ book' = Some r ->
              addOrGet name_ book' = (Return (r, lit "Contact updated."), book')).
  { intros book' r H. unfold addOrGet. now rewrite H. }
  split; [|split; [exact G|]].
  - destruct (find name_ book) as [r |] eqn:F.
    + rewrite (G _ _ F). simpl.
      exists r, (lit "Contact updated."). auto.
    + assert (E : addOrGet name_ book
                  = (Return (mkRecord (mkName name_) [] None, lit "Contact added."),
                     setitem name_ (mkRecord (mkName name_) [] None) book)).
      { unfold addOrGet. rewrite F. reflexivity. }
      rewrite E. simpl.
      exists (mkRecord (mkName name_) [] None), (lit "Contact added.").
      split; [reflexivity|].
      split; [apply find_setitem|]. apply G, find_setitem.
  - intros book' r phone rest F V.
    unfold add_contact, add_contact_body. rewrite (G _ _ F).
    assert (phone <> []) as N.
    { intros ->. discriminate V. }
    destruct phone as [| c phone']; [contradiction|].
    unfold add_phone, Phone_init. rewrite valid_phone_test, V. reflexivity.
Qed.

(** ** C10 *)

(** C10: [add_contact] stores the new record before [add_phone] tests the
    phone.  For a name that is not in the book and a phone that [Phone]
    refuses, the find-or-create of lines 136 to 141 has already put the new
    contact, without phones, after the contacts the book had; [add_phone],
    called after it, raises its [ValueError] and leaves the record as it is;
    the book that [add_contact] ends with is the one [add_record] made.  The
    command answers with the text for wrong input.  (For the empty string,
    which is not a phone either, line 142 does not call [add_phone]: the
    contact is stored all the same and the command says so.) *)
Theorem add_contact_not_atomic (name_ phone : str) (rest : list str)
    (book : AddressBook) :
  find name_ book = None ->
  raises (Phone_init phone) ->
  let record := mkRecord (mkName name_) [] None in
  let book' := book ++ [(name_, record)] in
  addOrGet name_ book
  = (Return (record, lit "Contact added."), add_record record book)
  /\ add_record record book = book'
  /\ find name_ book' = Some record
  /\ book' <> book
  /\ add_phone record phone
     = (Raise (ValueError (lit "Invalid phone number format")), record)
  /\ snd (add_contact_body (name_ :: phone :: rest) book) = add_record record book
  /\ snd (add_contact (name_ :: phone :: rest) book) = book'
  /\ (phone <> [] ->
      add_contact_body (name_ :: phone :: rest) book
      = (Raise (ValueError (lit "Invalid phone number format")), book')
      /\ add_contact (name_ :: phone :: rest) book
         = (lit "Give me name and correct format of phone (10 digits) please.",
            book'))
  /\ (phone = [] ->
      add_contact (name_ :: phone :: rest) book = (lit "Contact added.", book')).
Proof.
  intros F V record book'. apply Phone_init_valid in V.
  assert (A : addOrGet name_ book
              = (Return (record, lit "Contact added."), add_record record book)).
  { unfold addOrGet. rewrite F. reflexivity. }
  assert (S : add_record record book = book').
  { unfold add_record. simpl. now apply setitem_absent. }
  assert (F' : find name_ book' = Some record).
  { rewrite <- S. unfold add_record. simpl. apply find_setitem. }
  assert (P : add_phone record phone
              = (Raise (ValueError (lit "Invalid phone number format")), record)).
  { unfold add_phone. now rewrite valid_phone_test, V. }
  assert (B : add_contact_body (name_ :: phone :: rest) book
              = match phone with
                | [] => (Return (lit "Contact added."), add_record record book)
                | _ :: _ =>
                    (Raise (ValueError (lit "Invalid phone number format")),
                     add_record record book)
                end).
  { unfold add_contact_body. rewrite A.
    destruct phone as [| c phone']; [reflexivity|]. now rewrite P. }
  split; [exact A|]. split; [exact S|]. split; [exact F'|]. split.
  { intros E. rewrite E in F'. congruence. }
  split; [exact P|]. split.
  { rewrite B. now destruct phone. }
  split.
  { unfold add_contact. rewrite B, S. now destruct phone. }
  split.
  - intros N. destruct phone as [| c phone']; [contradiction|].
    unfold add_contact. rewrite B, S. split; reflexivity.
  - intros ->. unfold add_contact. rewrite B, S. reflexivity.
Qed.

Lemma add_contact_not_atomic_witness :
  add_contact [lit "Ann"; lit "12345"] []
  = (lit "Give me name and correct format of phone (10 digits) please.",
     [(lit "Ann", mkRecord (mkName (lit "Ann")) [] None)]).
Proof.
  destruct (add_contact_not_atomic (lit "Ann") (lit "12345") [] [])
    as (_ & _ & _ & _ & _ & _ & _ & H & _).
  - reflexivity.
  - eexists. vm_compute. reflexivity.
  - apply H. discriminate.
Defined.

(* ================================================================== *)
(** * Birthdays as text *)
(* ================================================================== *)

(** A year as four digits, padded with zeros. *)
Definition fmt4 (y : Z) : str :=
  [48 + y / 1000; 48 + y / 100 mod 10; 48 + y / 10 mod 10; 48 + y mod 10].

(** The text DD.MM.YYYY of a date, each field padded with zeros. *)
Definition canonical (d : date) : str :=
  fmt2 (day d) ++ [46] ++ fmt2 (month d) ++ [46] ++ fmt4 (year d).

Ltac eval_fmt2 :=
  repeat match goal with
  | |- context [fmt2 ?n] =>
      let v := eval vm_compute in (fmt2 n) in change (fmt2 n) with v
  end.

Lemma decimal_value_ascii (v : Z) :
  0 <= v <= 9 -> isdecimal_char (48 + v) = true /\ decimal_value (48 + v) = v.
Proof.
  intros H.
  assert (v = 0 \/ v = 1 \/ v = 2 \/ v = 3 \/ v = 4 \/ v = 5 \/ v = 6
          \/ v = 7 \/ v = 8 \/ v = 9) as C by lia.
  repeat (destruct C as [-> | C]; [split; vm_compute; reflexivity|]).
  subst. split; vm_compute; reflexivity.
Qed.

Lemma int_digits (l : list Z) (acc : Z) :
  Forall (fun v => 0 <= v <= 9) l ->
  fold_left (fun a c => a * 10 + decimal_value c) (map (Z.add 48) l) acc
  = fold_left (fun a v => a * 10 + v) l acc.
Proof.
  intros H. revert acc. induction H as [| v l Hv _ IH]; intros acc; simpl; trivial.
  rewrite (proj2 (decimal_value_ascii v Hv)). apply IH.
Qed.

Lemma int_fmt2 (n : Z) : 0 <= n <= 99 -> int (fmt2 n) = n.
Proof.
  intros H. unfold int, fmt2.
  assert (D : 0 <= n / 10 <= 9) by (Z.div_mod_to_equations; lia).
  assert (M : 0 <= n mod 10 <= 9) by (Z.div_mod_to_equations; lia).
  unfold lstrip.
  replace (48 + n / 10 =? 32) with false by (symmetry; apply Z.eqb_neq; lia).
  change [48 + n / 10; 48 + n mod 10] with (map (Z.add 48) [n / 10; n mod 10]).
  rewrite int_digits by (repeat constructor; lia).
  simpl. Z.div_mod_to_equations. lia.
Qed.

Lemma int_fmt4 (y : Z) : 0 <= y <= 9999 -> int (fmt4 y) = y.
Proof.
  intros H. unfold int, fmt4.
  assert (0 <= y / 1000 <= 9) by (Z.div_mod_to_equations; lia).
  assert (0 <= y / 100 mod 10 <= 9) by (Z.div_mod_to_equations; lia).
  assert (0 <= y / 10 mod 10 <= 9) by (Z.div_mod_to_equations; lia).
  assert (0 <= y mod 10 <= 9) by (Z.div_mod_to_equations; lia).
  unfold lstrip.
  replace (48 + y / 1000 =? 32) with false by (symmetry; apply Z.eqb_neq; lia).
  change [48 + y / 1000; 48 + y / 100 mod 10; 48 + y / 10 mod 10; 48 + y mod 10]
    with (map (Z.add 48) [y / 1000; y / 100 mod 10; y / 10 mod 10; y mod 10]).
  rewrite int_digits by (repeat constructor; lia).
  simpl. Z.div_mod_to_equations. lia.
Qed.

(** The day of a canonical text is read by the two-character alternative
    that is tried first for it. *)
Lemma re_d_canonical {R : Type} (k : str -> str -> option R) (n : Z) (rest : str)
    (v : R) :
  1 <= n <= 31 ->
  k (fmt2 n) rest = Some v ->
  re_d k (fmt2 n ++ rest) = Some v.
Proof.
  intros H.
  assert (n = 1 \/ n = 2 \/ n = 3 \/ n = 4 \/ n = 5 \/ n = 6 \/ n = 7 \/ n = 8
          \/ n = 9 \/ n = 10 \/ n = 11 \/ n = 12 \/ n = 13 \/ n = 14 \/ n = 15
          \/ n = 16 \/ n = 17 \/ n = 18 \/ n = 19 \/ n = 20 \/ n = 21 \/ n = 22
          \/ n = 23 \/ n = 24 \/ n = 25 \/ n = 26 \/ n = 27 \/ n = 28 \/ n = 29
          \/ n = 30 \/ n = 31) as C by lia.
  repeat (destruct C as [-> | C];
          [eval_fmt2; intros K; unfold re_d, two, one; simpl; rewrite K; reflexivity|]).
  subst. eval_fmt2. intros K. unfold re_d, two, one. simpl. rewrite K. reflexivity.
Qed.

Lemma re_m_canonical {R : Type} (k : str -> str -> option R) (n : Z) (rest : str)
    (v : R) :
  1 <= n <= 12 ->
  k (fmt2 n) rest = Some v ->
  re_m k (fmt2 n ++ rest) = Some v.
Proof.
  intros H.
  assert (n = 1 \/ n = 2 \/ n = 3 \/ n = 4 \/ n = 5 \/ n = 6 \/ n = 7 \/ n = 8
          \/ n = 9 \/ n = 10 \/ n = 11 \/ n = 12) as C by lia.
  repeat (destruct C as [-> | C];
          [eval_fmt2; intros K; unfold re_m, two, one; simpl; rewrite K; reflexivity|]).
  subst. eval_fmt2. intros K. unfold re_m, two, one. simpl. rewrite K. reflexivity.
Qed.

Lemma re_Y_canonical {R : Type} (k : str -> str -> option R) (y : Z) (rest : str) :
  0 <= y <= 9999 ->
  re_Y k (fmt4 y ++ rest) = k (fmt4 y) rest.
Proof.
  intros H. unfold re_Y, fmt4. simpl.
  rewrite !(fun v Hv => proj1 (decimal_value_ascii v Hv))
    by (Z.div_mod_to_equations; lia).
  reflexivity.
Qed.

Lemma re_dot_canonical {R : Type} (k : str -> option R) (rest : str) :
  re_dot k ([46] ++ rest) = k rest.
Proof. reflexivity. Qed.

Lemma valid_date_day (d : date) : valid_date d -> 1 <= day d <= 31.
Proof.
  intros (Hy & Hm & Hd). unfold days_in_month, DAYS_IN_MONTH in Hd.
  assert (month d = 1 \/ month d = 2 \/ month d = 3 \/ month d = 4
          \/ month d = 5 \/ month d = 6 \/ month d = 7 \/ month d = 8
          \/ month d = 9 \/ month d = 10 \/ month d = 11 \/ month d = 12)
    as C by lia.
  destruct (is_leap (year d));
    repeat (destruct C as [E | C]; [rewrite E in Hd; simpl in Hd; lia|]);
    rewrite C in Hd; simpl in Hd; lia.
Qed.

Lemma re_match_canonical (d : date) :
  valid_date d ->
  re_match (canonical d) = Some (fmt2 (day d), fmt2 (month d), fmt4 (year d), []).
Proof.
  intros V. pose proof (valid_date_day d V) as Hd'.
  destruct V as (Hy & Hm & Hd). unfold MINYEAR, MAXYEAR in Hy.
  unfold re_match, canonical.
  apply re_d_canonical; trivial. rewrite re_dot_canonical.
  apply re_m_canonical; trivial. rewrite re_dot_canonical.
  rewrite <- (app_nil_r (fmt4 (year d))).
  rewrite re_Y_canonical by lia. reflexivity.
Qed.

(** [Birthday] reads the canonical text of a date as that date. *)
Lemma Birthday_init_canonical (d : date) :
  valid_date d -> Birthday_init (canonical d) = Return (mkBirthday d).
Proof.
  intros V. unfold Birthday_init, strptime_dmY.
  rewrite (re_match_canonical d V).
  pose proof (valid_date_day d V) as Hd'.
  pose proof V as (Hy & Hm & Hd). unfold MINYEAR, MAXYEAR in Hy.
  rewrite !int_fmt2, int_fmt4 by lia.
  rewrite (date_new_valid d V). reflexivity.
Qed.

(** From year 1000 on the year is written with four digits on every host;
    before, only where the C library pads. *)
Definition fmtY_agrees (y : Z) : bool :=
  str_eqb (fmtY true y) (fmt4 y)
  && ((y <? 1000) || str_eqb (fmtY false y) (fmt4 y)).

Lemma fmtY_table : forallb fmtY_agrees (upto (Z.to_nat 10000)) = true.
Proof. vm_compute. reflexivity. Qed.

Lemma fmtY_fmt4 (pad : bool) (y : Z) :
  0 <= y <= 9999 -> pad = true \/ 1000 <= y -> fmtY pad y = fmt4 y.
Proof.
  intros H P. pose proof fmtY_table as T. rewrite forallb_forall in T.
  specialize (T y (in_upto (Z.to_nat 10000) y ltac:(lia))).
  unfold fmtY_agrees in T. apply andb_true_iff in T. destruct T as [T1 T2].
  destruct pad.
  - now apply str_eqb_eq.
  - destruct P as [P | P]; [discriminate|].
    apply orb_true_iff in T2. destruct T2 as [T2 | T2].
    + apply Z.ltb_lt in T2. lia.
    + now apply str_eqb_eq.
Qed.

(** ** C9 *)

(** The text 01.01.0999. *)
Definition new_year_999 : str := lit "01.01.0999".

(** C9, as stated, fails where the C library does not pad [%Y] (glibc): the
    canonical text 01.01.0999 is read as 1 January 999, which [strftime]
    writes as 01.01.999. *)
Lemma year_999_not_restored :
  new_year_999 = canonical (mkdate 999 1 1)
  /\ Birthday_init new_year_999 = Return (mkBirthday (mkdate 999 1 1))
  /\ strftime_dmY false (mkdate 999 1 1) = lit "01.01.999"
  /\ strftime_dmY false (mkdate 999 1 1) <> new_year_999.
Proof.
  repeat split; try (vm_compute; reflexivity).
  vm_compute. discriminate.
Qed.

(** C9, amended: [Birthday] accepts the canonical text DD.MM.YYYY of every
    date of the calendar (years 0001 to 9999) and stores that date; writing
    the stored date with [strftime('%d.%m.%Y')] gives the text back when the
    year is 1000 or later, and for the earlier years on the hosts whose C
    library pads [%Y] to four digits. *)
Theorem birthday_roundtrip (pad : bool) (d : date) :
  valid_date d ->
  pad = true \/ 1000 <= year d ->
  Birthday_init (canonical d) = Return (mkBirthday d)
  /\ strftime_dmY pad (Birthday_value (mkBirthday d)) = canonical d
  /\ exists D1 D2 M1 M2 Y1 Y2 Y3 Y4,
       Forall (fun c => is_ascii_digit c = true) [D1; D2; M1; M2; Y1; Y2; Y3; Y4]
       /\ canonical d = [D1; D2; 46; M1; M2; 46; Y1; Y2; Y3; Y4].
Proof.
  intros V P. split; [now apply Birthday_init_canonical|].
  pose proof (valid_date_day d V) as Hd'.
  pose proof V as (Hy & Hm & Hd). unfold MINYEAR, MAXYEAR in Hy.
  split.
  - unfold strftime_dmY, canonical. simpl.
    now rewrite (fmtY_fmt4 pad (year d) ltac:(lia) P).
  - unfold canonical, fmt2, fmt4. simpl. do 8 eexists. split; [|reflexivity].
    unfold is_ascii_digit.
    repeat constructor; apply andb_true_iff; split; apply Z.leb_le;
      Z.div_mod_to_equations; lia.
Qed.

Lemma birthday_roundtrip_witness :
  Birthday_init (lit "15.06.2024") = Return (mkBirthday (mkdate 2024 6 15))
  /\ strftime_dmY false (mkdate 2024 6 15) = lit "15.06.2024".
Proof.
  assert (V : valid_date (mkdate 2024 6 15)).
  { unfold valid_date. vm_compute. intuition discriminate. }
  assert (P : false = true \/ 1000 <= year (mkdate 2024 6 15)).
  { right. simpl. lia. }
  destruct (birthday_roundtrip false (mkdate 2024 6 15) V P) as (B & S & _).
  split; [exact B | exact S].
Defined.

(* ================================================================== *)
(** * More on records and the book *)
(* ================================================================== *)

Lemma Phone_eta (p : Phone) : mkPhone (Phone_value p) = p.
Proof. now destruct p. Qed.

Lemma remove_phone_loop_found (l1 l2 : list Phone) (p : Phone) (phone : str) :
  (forall q, In q l1 -> Phone_value q <> phone) ->
  Phone_value p = phone ->
  remove_phone_loop (l1 ++ p :: l2) phone = l1 ++ l2.
Proof.
  intros H1 Hp. induction l1 as [| q l1 IH]; simpl.
  - now rewrite Hp, str_eqb_refl.
  - replace (str_eqb (Phone_value q) phone) with false
      by (symmetry; apply str_eqb_neq, H1; now left).
    rewrite IH by (intros; apply H1; now right). reflexivity.
Qed.

Lemma remove_phone_loop_absent (ps : list Phone) (phone : str) :
  (forall q, In q ps -> Phone_value q <> phone) ->
  remove_phone_loop ps phone = ps.
Proof.
  intros H. induction ps as [| q ps IH]; simpl; trivial.
  replace (str_eqb (Phone_value q) phone) with false
    by (symmetry; apply str_eqb_neq, H; now left).
  rewrite IH by (intros; apply H; now right). reflexivity.
Qed.

(** A list of phones either has no entry with the value, or splits at the
    first one. *)
Lemma first_phone (ps : list Phone) (phone : str) :
  (forall q, In q ps -> Phone_value q <> phone)
  \/ exists l1 p l2,
       ps = l1 ++ p :: l2
       /\ (forall q, In q l1 -> Phone_value q <> phone)
       /\ Phone_value p = phone.
Proof.
  induction ps as [| q ps IH].
  - left. intros q [].
  - destruct (str_eqb (Phone_value q) phone) eqn:E.
    + right. exists [], q, ps. apply str_eqb_eq in E.
      split; [reflexivity|]. split; [intros ? []|exact E].
    + apply str_eqb_neq in E. destruct IH as [IH | (l1 & p & l2 & -> & H1 & Hp)].
      * left. intros q' [<- | H]; auto.
      * right. exists (q :: l1), p, l2. split; [reflexivity|]. split; trivial.
        intros q' [<- | H]; auto.
Qed.

(** X1. [remove_phone] takes out the first entry with the value and keeps
    the others in their order; when no entry has the value it changes
    nothing; it never raises. *)
Theorem remove_phone_spec (self : RecordObj) (phone : str) :
  (forall l1 p l2,
     phones self = l1 ++ p :: l2 ->
     (forall q, In q l1 -> Phone_value q <> phone) ->
     Phone_value p = phone ->
     remove_phone self phone = (Return tt, set_phones self (l1 ++ l2)))
  /\ ((forall q, In q (phones self) -> Phone_value q <> phone) ->
      remove_phone self phone = (Return tt, self)).
Proof.
  unfold remove_phone. split.
  - intros l1 p l2 E H1 Hp. now rewrite E, remove_phone_loop_found.
  - intros H. now rewrite remove_phone_loop_absent, set_phones_same.
Qed.

(** X2. Adding a phone that the record does not have and removing it again
    gives the record back. *)
Theorem add_remove_phone (self : RecordObj) (phone : str) :
  valid_phone phone = true ->
  (forall q, In q (phones self) -> Phone_value q <> phone) ->
  fst (add_phone self phone) = Return tt
  /\ remove_phone (snd (add_phone self phone)) phone = (Return tt, self).
Proof.
  intros V H. unfold add_phone, Phone_init. rewrite valid_phone_test, V. simpl.
  split; [reflexivity|]. unfold remove_phone. simpl.
  rewrite (remove_phone_loop_found (phones self) [] (mkPhone phone) phone H eq_refl).
  rewrite app_nil_r. now destruct self.
Qed.

Lemma add_remove_phone_witness :
  remove_phone (snd (add_phone (mkRecord (mkName (lit "Ann")) [] None)
                               (lit "0123456789")))
               (lit "0123456789")
  = (Return tt, mkRecord (mkName (lit "Ann")) [] None).
Proof.
  refine (proj2 (add_remove_phone (mkRecord (mkName (lit "Ann")) [] None)
                   (lit "0123456789") _ _)).
  - vm_compute. reflexivity.
  - intros q [].
Defined.

(** X3. Editing a phone to a value the record does not have and editing it
    back gives the record back. *)
Theorem edit_phone_back (self : RecordObj) (old_phone new_phone : str) :
  valid_phone old_phone = true ->
  valid_phone new_phone = true ->
  (exists p, In p (phones self) /\ Phone_value p = old_phone) ->
  (forall q, In q (phones self) -> Phone_value q <> new_phone) ->
  fst (edit_phone self old_phone new_phone) = Return tt
  /\ edit_phone (snd (edit_phone self old_phone new_phone)) new_phone old_phone
     = (Return tt, self).
Proof.
  intros Vo Vn (p0 & Hin & Hp0) Hnew.
  destruct (first_phone (phones self) old_phone) as [Habs | (l1 & p & l2 & E & H1 & Hp)].
  { exfalso. now apply (Habs p0 Hin). }
  assert (E1 : edit_phone self old_phone new_phone
               = (Return tt, set_phones self (l1 ++ mkPhone new_phone :: l2))).
  { unfold edit_phone.
    now rewrite E, (edit_phone_loop_found l1 l2 p _ new_phone H1 Hp), Vn. }
  rewrite E1. simpl. split; [reflexivity|].
  unfold edit_phone. simpl.
  rewrite (edit_phone_loop_found l1 l2 (mkPhone new_phone) new_phone old_phone).
  - rewrite Vo. simpl. rewrite <- Hp, Phone_eta. unfold set_phones. simpl.
    rewrite <- E. now destruct self.
  - intros q Hq. apply Hnew. rewrite E. apply in_or_app. now left.
  - reflexivity.
Qed.

Lemma edit_phone_back_witness :
  edit_phone
    (snd (edit_phone (mkRecord (mkName (lit "Ann")) [mkPhone (lit "0123456789")] None)
                     (lit "0123456789") (lit "9876543210")))
    (lit "9876543210") (lit "0123456789")
  = (Return tt, mkRecord (mkName (lit "Ann")) [mkPhone (lit "0123456789")] None).
Proof.
  refine (proj2 (edit_phone_back
                   (mkRecord (mkName (lit "Ann")) [mkPhone (lit "0123456789")] None)
                   (lit "0123456789") (lit "9876543210") _ _ _ _)).
  - vm_compute. reflexivity.
  - vm_compute. reflexivity.
  - eexists. split; [now left | reflexivity].
  - intros q [<- | []]. vm_compute. discriminate.
Defined.

Lemma find_setitem_other (key k : str) (value : RecordObj) (book : AddressBook) :
  k <> key -> find k (setitem key value book) = find k book.
Proof.
  intros N. induction book as [| [k0 r0] rest IH]; simpl.
  - replace (str_eqb key k) with false; trivial.
    symmetry. apply str_eqb_neq. congruence.
  - destruct (str_eqb k0 key) eqn:E; simpl.
    + apply str_eqb_eq in E. subst k0.
      replace (str_eqb key k) with false; trivial.
      symmetry. apply str_eqb_neq. congruence.
    + now rewrite IH.
Qed.

(** X4. A record that [add_record] stores is what [find] returns for its
    name; the other names keep their records; a name that was in the book
    keeps its place, a new one goes last. *)
Theorem find_add_record (record : RecordObj) (book : AddressBook) :
  find (Name_value (name record)) (add_record record book) = Some record
  /\ (forall k, k <> Name_value (name record) ->
        find k (add_record record book) = find k book)
  /\ map fst (add_record record book)
     = match find (Name_value (name record)) book with
       | Some _ => map fst book
       | None => map fst book ++ [Name_value (name record)]
       end.
Proof.
  unfold add_record. split; [apply find_setitem|]. split.
  - intros k N. now apply find_setitem_other.
  - apply setitem_keys.
Qed.

Lemma find_not_key (k : str) (book : AddressBook) :
  ~ In k (map fst book) -> find k book = None.
Proof.
  induction book as [| [k0 r0] rest IH]; simpl; trivial.
  intros N. destruct (str_eqb k0 k) eqn:E.
  - apply str_eqb_eq in E. tauto.
  - apply IH. tauto.
Qed.

Lemma delete_incl (k : str) (book : AddressBook) (x : str * RecordObj) :
  In x (delete k book) -> In x book.
Proof.
  induction book as [| [k0 r0] rest IH]; simpl; trivial.
  destruct (str_eqb k0 k); simpl; [tauto|]. intros [H | H]; auto.
Qed.

(** X5. In a book with one record per name, [delete] makes the name
    unknown to [find], keeps the other names with their records, leaves a
    book of the same kind, and changes nothing when the name is not
    there. *)
Theorem delete_spec (name_ : str) (book : AddressBook) :
  book_ok book ->
  find name_ (delete name_ book) = None
  /\ (forall k, k <> name_ -> find k (delete name_ book) = find k book)
  /\ book_ok (delete name_ book)
  /\ (find name_ book = None -> delete name_ book = book).
Proof.
  intros [N K]. split; [|split; [|split]].
  - induction book as [| [k0 r0] rest IH]; simpl; trivial.
    simpl in N. inversion N as [| ? ? Nk Nrest]; subst.
    destruct (str_eqb k0 name_) eqn:E.
    + apply str_eqb_eq in E. subst. now apply find_not_key.
    + simpl. rewrite E. apply IH; trivial. intros; apply K; now right.
  - intros k Hk. clear N K. induction book as [| [k0 r0] rest IH]; simpl; trivial.
    destruct (str_eqb k0 name_) eqn:E.
    + apply str_eqb_eq in E. subst k0.
      replace (str_eqb name_ k) with false; trivial.
      symmetry. apply str_eqb_neq. congruence.
    + simpl. now rewrite IH.
  - split.
    + clear K. induction book as [| [k0 r0] rest IH]; simpl; trivial.
      simpl in N. inversion N as [| ? ? Nk Nrest]; subst.
      destruct (str_eqb k0 name_); trivial.
      simpl. constructor; auto.
      intros Hin. apply Nk. apply in_map_iff in Hin.
      destruct Hin as ([k1 r1] & <- & Hin). apply delete_incl in Hin.
      now apply (in_map fst) in Hin.
    + intros k r Hin. apply K. now apply delete_incl in Hin.
  - clear N K. induction book as [| [k0 r0] rest IH]; simpl; trivial.
    destruct (str_eqb k0 name_); [discriminate|]. intros H. now rewrite IH.
Qed.

Lemma delete_spec_witness :
  find (lit "Bob") (delete (lit "Bob") book_Bob) = None.
Proof.
  refine (proj1 (delete_spec (lit "Bob") book_Bob _)).
  split.
  - simpl. constructor; [intros [] | constructor].
  - intros k r [H | []]. injection H as <- <-. reflexivity.
Defined.

(* ================================================================== *)
(** * The other commands *)
(* ================================================================== *)

Definition wrong_format : str :=
  lit "Give me name and correct format of phone (10 digits) please.".

Lemma find_phone_absent (self : RecordObj) (phone : str) :
  (forall q, In q (phones self) -> Phone_value q <> phone) ->
  find_phone self phone = None.
Proof.
  unfold find_phone. intros H.
  induction (phones self) as [| q ps IH]; simpl; trivial.
  replace (str_eqb (Phone_value q) phone) with false
    by (symmetry; apply str_eqb_neq, H; now left).
  apply IH. intros; apply H; now right.
Qed.

Lemma find_phone_found (self : RecordObj) (phone : str) (l1 l2 : list Phone)
    (p : Phone) :
  phones self = l1 ++ p :: l2 ->
  (forall q, In q l1 -> Phone_value q <> phone) ->
  Phone_value p = phone ->
  find_phone self phone = Some p.
Proof.
  unfold find_phone. intros -> H1 Hp.
  induction l1 as [| q l1 IH]; simpl.
  - now rewrite Hp, str_eqb_refl.
  - replace (str_eqb (Phone_value q) phone) with false
      by (symmetry; apply str_eqb_neq, H1; now left).
    apply IH. intros; apply H1; now right.
Qed.

(** X6. [change_contact] answers and acts by cases: fewer than three
    arguments, more than three, an unknown name, an old number the contact
    does not have, a new number that is not valid, and the change itself,
    which replaces the first entry equal to the old number.  In every case
    but the last the book stays as it was. *)
Theorem change_contact_cases (args : list str) (book : AddressBook) :
  (len args < 3 ->
   Commands.change_contact args book
   = (lit "Enter name, old phone number, and new phone number.", book))
  /\ (3 < len args -> Commands.change_contact args book = (wrong_format, book))
  /\ (forall name_ old_phone new_phone,
        args = [name_; old_phone; new_phone] ->
        (find name_ book = None ->
         Commands.change_contact args book = (lit "Contact not found.", book))
        /\ (forall r,
              find name_ book = Some r ->
              ((forall q, In q (phones r) -> Phone_value q <> old_phone) ->
               Commands.change_contact args book
               = (lit "The old number is not correct", book))
              /\ (forall l1 p l2,
                    phones r = l1 ++ p :: l2 ->
                    (forall q, In q l1 -> Phone_value q <> old_phone) ->
                    Phone_value p = old_phone ->
                    (valid_phone new_phone = false ->
                     Commands.change_contact args book
                     = (lit "Invalid new phone number format", book))
                    /\ (valid_phone new_phone = true ->
                        Commands.change_contact args book
                        = (lit "Contact updated successfully",
                           setitem name_
                             (set_phones r (l1 ++ mkPhone new_phone :: l2))
                             book)))))
  /\ (snd (Commands.change_contact args book) = book
      \/ fst (Commands.change_contact args book)
         = lit "Contact updated successfully").
Proof.
  assert (Few : len args < 3 ->
    Commands.change_contact args book
    = (lit "Enter name, old phone number, and new phone number.", book)).
  { intros H. unfold Commands.change_contact, Commands.change_contact_body.
    replace (len args <? 3) with true by (symmetry; apply Z.ltb_lt; exact H).
    reflexivity. }
  assert (Many : 3 < len args -> Commands.change_contact args book = (wrong_format, book)).
  { intros H. unfold Commands.change_contact, Commands.change_contact_body.
    replace (len args <? 3) with false by (symmetry; apply Z.ltb_ge; lia).
    destruct args as [| a [| b [| c [| d rest]]]]; try (unfold len in H; simpl in H; lia).
    reflexivity. }
  assert (Three : forall name_ old_phone new_phone,
    args = [name_; old_phone; new_phone] ->
    (find name_ book = None ->
     Commands.change_contact args book = (lit "Contact not found.", book))
    /\ (forall r, find name_ book = Some r ->
          ((forall q, In q (phones r) -> Phone_value q <> old_phone) ->
           Commands.change_contact args book
           = (lit "The old number is not correct", book))
          /\ (forall l1 p l2,
                phones r = l1 ++ p :: l2 ->
                (forall q, In q l1 -> Phone_value q <> old_phone) ->
                Phone_value p = old_phone ->
                (valid_phone new_phone = false ->
                 Commands.change_contact args book
                 = (lit "Invalid new phone number format", book))
                /\ (valid_phone new_phone = true ->
                    Commands.change_contact args book
                    = (lit "Contact updated successfully",
                       setitem name_
                         (set_phones r (l1 ++ mkPhone new_phone :: l2)) book))))).
  { intros name_ old_phone new_phone ->.
    unfold Commands.change_contact, Commands.change_contact_body.
    change (len [name_; old_phone; new_phone] <? 3) with false. cbv iota.
    split.
    - intros ->. reflexivity.
    - intros r F. rewrite F. split.
      + intros H. now rewrite (find_phone_absent r old_phone H).
      + intros l1 p l2 E H1 Hp.
        rewrite (find_phone_found r old_phone l1 l2 p E H1 Hp).
        unfold edit_phone.
        rewrite E, (edit_phone_loop_found l1 l2 p old_phone new_phone H1 Hp).
        split; intros ->; simpl; [|reflexivity].
        rewrite <- E, set_phones_same, (setitem_same _ _ _ F). reflexivity. }
  split; [exact Few|]. split; [exact Many|]. split; [exact Three|].
  destruct (Z.lt_ge_cases (len args) 3) as [H | H]; [rewrite (Few H); now left|].
  destruct (Z.lt_ge_cases 3 (len args)) as [H' | H']; [rewrite (Many H'); now left|].
  destruct args as [| name_ [| old_phone [| new_phone [| d rest]]]];
    try (unfold len in *; simpl in *; lia).
  destruct (Three name_ old_phone new_phone eq_refl) as [None_ Some_].
  destruct (find name_ book) as [r |] eqn:F; [|rewrite None_; auto].
  destruct (Some_ r eq_refl) as [Absent Found].
  destruct (first_phone (phones r) old_phone) as [A | (l1 & p & l2 & E & H1 & Hp)].
  - rewrite (Absent A). now left.
  - destruct (Found l1 p l2 E H1 Hp) as [Bad Good].
    destruct (valid_phone new_phone).
    + rewrite (Good eq_refl). now right.
    + rewrite (Bad eq_refl). now left.
Qed.

(** X7. What the commands do with too few or too many arguments: [add] with
    fewer than two and [add-birthday] with more than two answer with the
    text for a wrong phone; [phone], [show] and [show-birthday] without a
    name ask for one; [add-birthday] with fewer than two asks for both; the
    book never changes.  [add], [phone], [show] and [show-birthday] do not
    look at the arguments beyond the ones they use. *)
Theorem wrong_number_of_arguments (args : list str) (book : AddressBook) (pad : bool) :
  (len args < 2 -> add_contact args book = (wrong_format, book))
  /\ (len args < 2 ->
      Commands.add_birthday args book
      = (lit "Add a user name and birthday please.", book))
  /\ (2 < len args -> Commands.add_birthday args book = (wrong_format, book))
  /\ Commands.phone_contact [] book = lit "Enter username."
  /\ Commands.show_contact [] book = lit "Enter username."
  /\ Commands.show_birthday pad [] book = lit "Enter username."
  /\ (forall a b rest, add_contact (a :: b :: rest) book = add_contact [a; b] book)
  /\ (forall a rest,
        Commands.phone_contact (a :: rest) book = Commands.phone_contact [a] book
        /\ Commands.show_contact (a :: rest) book = Commands.show_contact [a] book
        /\ Commands.show_birthday pad (a :: rest) book
           = Commands.show_birthday pad [a] book).
Proof.
  split; [|split; [|split]].
  - intros H. destruct args as [| a [| b rest]]; try reflexivity.
    unfold len in H. simpl in H. lia.
  - intros H. unfold Commands.add_birthday, Commands.add_birthday_body.
    replace (len args <? 2) with true by (symmetry; apply Z.ltb_lt; exact H).
    reflexivity.
  - intros H. unfold Commands.add_birthday, Commands.add_birthday_body.
    replace (len args <? 2) with false by (symmetry; apply Z.ltb_ge; lia).
    destruct args as [| a [| b [| c rest]]]; try (unfold len in H; simpl in H; lia).
    reflexivity.
  - repeat split; try reflexivity.
    + unfold Commands.show_contact, Commands.show_contact_body.
      replace (len (a :: rest) <? 1) with false
        by (symmetry; apply Z.ltb_ge; unfold len; simpl; lia).
      reflexivity.
    + unfold Commands.show_birthday, Commands.show_birthday_body.
      replace (len (a :: rest) <? 1) with false
        by (symmetry; apply Z.ltb_ge; unfold len; simpl; lia).
      reflexivity.
Qed.

(** [Birthday] returns a date of the calendar, or raises its own
    [ValueError]. *)
Lemma Birthday_init_cases (s : str) :
  (exists b, Birthday_init s = Return b /\ valid_date (Birthday_value b))
  \/ Birthday_init s = Raise (ValueError (lit "Invalid date format. Use DD.MM.YYYY")).
Proof.
  unfold Birthday_init, strptime_dmY.
  destruct (re_match s) as [[[[d m] Y] rest] |]; [|now right].
  destruct rest; [|now right].
  destruct (date_new (int Y) (int m) (int d)) as [x | e] eqn:E; simpl.
  - left. eexists. split; [reflexivity|]. simpl. now apply date_new_Return in E.
  - right. apply date_new_Raise in E. destruct E as [msg ->]. reflexivity.
Qed.

(** X8. After [add-birthday] with the canonical text of a date, for a
    contact of the book, [show-birthday] shows that text (for the years
    before 1000, on the hosts that pad the year); the phones of the contact
    and the other contacts are as before. *)
Theorem add_show_birthday (name_ : str) (d : date) (pad : bool)
    (book : AddressBook) (r : RecordObj) :
  find name_ book = Some r ->
  valid_date d ->
  pad = true \/ 1000 <= year d ->
  Commands.add_birthday [name_; canonical d] book
  = (lit "Birthday added for " ++ name_ ++ lit ".",
     setitem name_ (set_birthday r (Some (mkBirthday d))) book)
  /\ Commands.show_birthday pad [name_]
       (snd (Commands.add_birthday [name_; canonical d] book))
     = name_ ++ lit "'s birthday: " ++ canonical d
  /\ (forall k, k <> name_ ->
        find k (snd (Commands.add_birthday [name_; canonical d] book)) = find k book).
Proof.
  intros F V P.
  assert (E : Commands.add_birthday [name_; canonical d] book
              = (lit "Birthday added for " ++ name_ ++ lit ".",
                 setitem name_ (set_birthday r (Some (mkBirthday d))) book)).
  { unfold Commands.add_birthday, Commands.add_birthday_body.
    change (len [name_; canonical d] <? 2) with false. cbv iota.
    rewrite F. unfold add_birthday. rewrite (Birthday_init_canonical d V).
    reflexivity. }
  rewrite E. simpl snd. split; [reflexivity|]. split.
  - unfold Commands.show_birthday, Commands.show_birthday_body.
    change (len [name_] <? 1) with false. cbv iota.
    rewrite find_setitem. simpl birthday. cbv iota.
    unfold strftime_dmY, canonical. simpl.
    pose proof V as (Hy & _). unfold MINYEAR, MAXYEAR in Hy.
    now rewrite (fmtY_fmt4 pad (year d) ltac:(lia) P).
  - intros k N. now apply find_setitem_other.
Qed.

Lemma add_show_birthday_witness :
  Commands.show_birthday false [lit "Bob"]
    (snd (Commands.add_birthday [lit "Bob"; lit "02.01.1990"] book_Bob))
  = lit "Bob's birthday: 02.01.1990".
Proof.
  assert (V : valid_date (mkdate 1990 1 2)).
  { unfold valid_date. vm_compute. intuition discriminate. }
  assert (P : false = true \/ 1000 <= year (mkdate 1990 1 2)).
  { right. simpl. lia. }
  exact (proj1 (proj2 (add_show_birthday (lit "Bob") (mkdate 1990 1 2) false book_Bob
                         (snd (contact "Bob" (mkdate 2024 6 15))) eq_refl V P))).
Defined.

(** X9. [add-birthday] with a text that [Birthday] refuses answers that the
    format is invalid, and with an unknown name that the contact is not
    found; in both cases the book stays as it was.  A text that is accepted
    replaces the birthday the contact had, by a date of the calendar. *)
Theorem add_birthday_cases (name_ text : str) (book : AddressBook) :
  (find name_ book = None ->
   Commands.add_birthday [name_; text] book = (lit "Contact not found.", book))
  /\ (forall r,
        find name_ book = Some r ->
        (raises (Birthday_init text) ->
         Commands.add_birthday [name_; text] book
         = (lit "Invalid date format. Use DD.MM.YYYY", book))
        /\ (forall b,
              Birthday_init text = Return b ->
              valid_date (Birthday_value b)
              /\ Commands.add_birthday [name_; text] book
                 = (lit "Birthday added for " ++ name_ ++ lit ".",
                    setitem name_ (set_birthday r (Some b)) book))).
Proof.
  unfold Commands.add_birthday, Commands.add_birthday_body.
  change (len [name_; text] <? 2) with false. cbv iota. split.
  - intros ->. reflexivity.
  - intros r F. rewrite F. unfold add_birthday. split.
    + intros [e E].
      destruct (Birthday_init_cases text) as [(b & Eb & _) | Er]; [congruence|].
      rewrite Er. simpl. now rewrite (setitem_same _ _ _ F).
    + intros b Eb. rewrite Eb. split; [|reflexivity].
      destruct (Birthday_init_cases text) as [(b' & Eb' & V) | Er]; congruence.
Qed.

(** X10. After [add] with a valid phone, [phone] lists the phones the
    contact had and then the new one, and [show] does the same after the
    name of the record; a contact that was not there has the new phone
    alone. *)
Theorem add_then_phone (name_ phone : str) (book : AddressBook) :
  valid_phone phone = true ->
  let before :=
    match find name_ book with
    | Some r => map Phone_value (phones r)
    | None => []
    end in
  Commands.phone_contact [name_] (snd (add_contact [name_; phone] book))
  = lit "Phone numbers for " ++ name_ ++ lit ": "
    ++ join (lit ", ") (before ++ [phone])
  /\ Commands.show_contact [name_] (snd (add_contact [name_; phone] book))
     = lit "Contact name: "
       ++ match find name_ book with
          | Some r => Name_value (name r)
          | None => name_
          end
       ++ lit ", phones: " ++ join (lit ", ") (before ++ [phone]).
Proof.
  intros V before.
  assert (N : phone <> []) by (intros ->; discriminate V).
  assert (E : snd (add_contact [name_; phone] book)
              = setitem name_
                  (match find name_ book with
                   | Some r => set_phones r (phones r ++ [mkPhone phone])
                   | None => mkRecord (mkName name_) [mkPhone phone] None
                   end) book).
  { unfold add_contact, add_contact_body, addOrGet.
    destruct phone as [| c phone']; [contradiction|].
    destruct (find name_ book) as [r |] eqn:F; simpl;
      unfold add_phone, Phone_init; rewrite valid_phone_test, V; simpl;
      trivial.
    unfold add_record. simpl. now rewrite setitem_setitem. }
  rewrite E.
  unfold Commands.phone_contact, Commands.phone_contact_body,
    Commands.show_contact, Commands.show_contact_body, Record_str.
  change (len [name_] <? 1) with false. cbv iota.
  rewrite find_setitem. unfold before.
  destruct (find name_ book) as [r |]; simpl;
    unfold Phone_str; rewrite ?map_app; split; reflexivity.
Qed.

Lemma add_then_phone_witness :
  Commands.phone_contact [lit "Ann"]
    (snd (add_contact [lit "Ann"; lit "0123456789"] []))
  = lit "Phone numbers for Ann: 0123456789".
Proof.
  refine (proj1 (add_then_phone (lit "Ann") (lit "0123456789") [] _)).
  vm_compute. reflexivity.
Defined.

(** X11. With a contact born on 29 February in the book, in a year that is
    not a leap year, [birthdays] answers with the text for a wrong phone:
    the [ValueError] of the query reaches [input_error]. *)
Theorem birthdays_leap_day (host : Host) (args : list str) (book : AddressBook)
    (r : RecordObj) (b : Birthday) :
  In r (values book) -> birthday r = Some b ->
  month (Birthday_value b) = 2 -> day (Birthday_value b) = 29 ->
  is_leap (year (dt_date (clock host))) = false ->
  Commands.birthdays host args book = wrong_format.
Proof.
  intros Hin Hb Hm Hd L.
  destruct (next_occurrence_leap_day (dt_date (clock host)) _ Hm Hd L) as [msg E].
  assert (Q : exists msg', get_upcoming_birthdays host book 7 = Raise (ValueError msg')).
  { unfold get_upcoming_birthdays, find_upcoming_birthdays.
    apply (upcoming_loop_Raise _ _ _ _ r b msg); trivial.
    - intros r' Hr'. now apply prepare_users_In in Hr'.
    - apply prepare_users_In. eauto. }
  destruct Q as [msg' Q].
  unfold Commands.birthdays, Commands.birthdays_body. rewrite Q. reflexivity.
Qed.

Lemma birthdays_leap_day_witness :
  Commands.birthdays (mkHost (noon 2023 2 20) false) [] book_leap = wrong_format.
Proof.
  apply (birthdays_leap_day (mkHost (noon 2023 2 20) false) [] book_leap
           (snd (contact "Leo" (mkdate 2000 2 29)))
           (mkBirthday (mkdate 2000 2 29))).
  - simpl. right. left. reflexivity.
  - reflexivity.
  - reflexivity.
  - reflexivity.
  - vm_compute. reflexivity.
Defined.

(* ================================================================== *)
(** * More on the birthday query *)
(* ================================================================== *)

(** The loop returns only when every record had an occurrence, and then
    with the entries of the records. *)
Lemma upcoming_loop_inv (pad : bool) (today : date) (days : Z)
    (records : list RecordObj) :
  (forall r, In r records -> exists b, birthday r = Some b) ->
  forall acc result,
    upcoming_loop pad today days acc records = Return result ->
    (forall r b, In r records -> birthday r = Some b ->
       exists occ, next_occurrence today (Birthday_value b) = Return occ)
    /\ result = acc ++ flat_map (entry_of pad today days) records.
Proof.
  induction records as [| r0 rest IH]; intros Hall acc result; simpl.
  - intros H. injection H as <-. split; [intros ? ? []|]. now rewrite app_nil_r.
  - destruct (Hall r0 (or_introl eq_refl)) as [b0 Hb0].
    destruct (upcoming_step_cases pad today days acc r0 b0 Hb0)
      as [(msg & E & S) | (occ & E & S)]; rewrite S; simpl; [discriminate|].
    intros H. apply IH in H; [|intros; apply Hall; now right].
    destruct H as [Hocc ->]. split.
    + intros r b [<- | Hin] Hb; [|eauto]. exists occ. congruence.
    + unfold entry_of at 2. rewrite Hb0, E. now rewrite app_assoc.
Qed.

Lemma entry_of_no_birthday (pad : bool) (today : date) (days : Z) (r : RecordObj) :
  birthday r = None -> entry_of pad today days r = [].
Proof. unfold entry_of. now intros ->. Qed.

Lemma flat_map_prepare_users (pad : bool) (today : date) (days : Z)
    (records : list RecordObj) :
  flat_map (entry_of pad today days) (prepare_users records)
  = flat_map (entry_of pad today days) records.
Proof.
  induction records as [| r rest IH]; simpl; trivial.
  destruct (birthday r) eqn:B; simpl; rewrite IH; trivial.
  now rewrite (entry_of_no_birthday _ _ _ r B).
Qed.

(** What the query returns, when it returns. *)
Lemma get_upcoming_birthdays_inv (host : Host) (book : AddressBook) (days : Z)
    (result : list congratulation) :
  get_upcoming_birthdays host book days = Return result ->
  occurrences_exist (dt_date (clock host)) book
  /\ result = flat_map (entry_of (pads_year host) (dt_date (clock host)) days)
                       (values book).
Proof.
  unfold get_upcoming_birthdays, find_upcoming_birthdays. intros H.
  apply upcoming_loop_inv in H.
  - destruct H as [Hocc ->]. split.
    + intros r b Hin Hb. apply (Hocc r b); trivial.
      apply prepare_users_In. eauto.
    + simpl. apply flat_map_prepare_users.
  - intros r Hr. now apply prepare_users_In in Hr.
Qed.

(** Whether a record has a birthday whose occurrence is in the window. *)
Definition in_window_of (today : date) (days : Z) (r : RecordObj) : bool :=
  match birthday r with
  | Some b =>
      match next_occurrence today (Birthday_value b) with
      | Return occ => in_window today days occ
      | Raise _ => false
      end
  | None => false
  end.

Lemma entry_of_names (pad : bool) (today : date) (days : Z) (r : RecordObj) :
  map cg_name (entry_of pad today days r)
  = if in_window_of today days r then [Name_value (name r)] else [].
Proof.
  unfold entry_of, in_window_of, entry_at.
  destruct (birthday r) as [b |]; trivial.
  destruct (next_occurrence today (Birthday_value b)) as [occ | e] eqn:E; trivial.
  apply next_occurrence_Return in E. destruct E as [V _].
  destruct (roll_weekend_spec occ V) as (d & R & _). rewrite R.
  now destruct (in_window today days occ).
Qed.

(** X12. When the query returns, the names in its result are the names of
    the contacts that have a birthday with an occurrence in the window, in
    the order of the book, each once: a contact without a birthday is never
    returned. *)
Theorem upcoming_names (host : Host) (book : AddressBook) (days : Z)
    (result : list congratulation) :
  get_upcoming_birthdays host book days = Return result ->
  map cg_name result
  = map (fun r => Name_value (name r))
        (filter (in_window_of (dt_date (clock host)) days) (values book)).
Proof.
  intros H. apply get_upcoming_birthdays_inv in H. destruct H as [_ ->].
  induction (values book) as [| r rest IH]; simpl; trivial.
  rewrite map_app, entry_of_names, IH.
  now destruct (in_window_of _ days r).
Qed.

Lemma upcoming_names_witness :
  map cg_name [mkCongratulation (lit "Bob") (lit "17.06.2024")]
  = map (fun r => Name_value (name r))
        (filter (in_window_of (mkdate 2024 6 10) 7) (values book_Bob)).
Proof.
  apply (upcoming_names (mkHost (noon 2024 6 10) false) book_Bob 7).
  vm_compute. reflexivity.
Defined.

(** X13. When the query returns, every date in its result is a date from
    Monday to Friday, not before today and at most [days + 2] days after
    it. *)
Theorem congratulation_on_weekday (host : Host) (book : AddressBook) (days : Z)
    (result : list congratulation) (c : congratulation) :
  get_upcoming_birthdays host book days = Return result ->
  In c result ->
  exists d,
    congratulation_date c = strftime_dmY (pads_year host) d
    /\ 0 <= weekday d <= 4
    /\ 0 <= sub_days d (dt_date (clock host)) <= days + 2.
Proof.
  intros H Hc. apply get_upcoming_birthdays_inv in H. destruct H as [_ ->].
  apply in_flat_map in Hc. destruct Hc as (r & _ & Hc).
  unfold entry_of, entry_at in Hc.
  destruct (birthday r) as [b |]; [|contradiction].
  destruct (next_occurrence _ (Birthday_value b)) as [occ | e] eqn:E;
    [|contradiction].
  apply next_occurrence_Return in E. destruct E as [V _].
  destruct (in_window _ days occ) eqn:W; [|contradiction].
  apply in_window_iff in W.
  destruct (roll_weekend_spec occ V) as (d & R & Sat & Sun & Week).
  rewrite R in Hc. destruct Hc as [<- | []]. exists d. split; [reflexivity|].
  pose proof (weekday_range occ) as Wr.
  assert (S : sub_days d (dt_date (clock host))
              = sub_days d occ + sub_days occ (dt_date (clock host))).
  { unfold sub_days. lia. }
  destruct (Z.eq_dec (weekday occ) 5) as [E5 | N5].
  { destruct (Sat E5) as (_ & S2 & W0). lia. }
  destruct (Z.eq_dec (weekday occ) 6) as [E6 | N6].
  { destruct (Sun E6) as (_ & S1 & W0). lia. }
  assert (d = occ) as -> by (apply Week; lia).
  unfold sub_days in *. lia.
Qed.

Lemma congratulation_on_weekday_witness :
  exists d,
    lit "17.06.2024" = strftime_dmY false d
    /\ 0 <= weekday d <= 4
    /\ 0 <= sub_days d (mkdate 2024 6 10) <= 7 + 2.
Proof.
  apply (congratulation_on_weekday (mkHost (noon 2024 6 10) false) book_Bob 7
           [mkCongratulation (lit "Bob") (lit "17.06.2024")]
           (mkCongratulation (lit "Bob") (lit "17.06.2024"))).
  - vm_compute. reflexivity.
  - now left.
Defined.

(** X14. A wider window never loses an entry: when the query returns for
    [days], it returns for every [days'] from [days] up, with all the
    entries it had; and for a negative [days] the result is empty. *)
Theorem wider_window (host : Host) (book : AddressBook) (days days' : Z)
    (result : list congratulation) :
  get_upcoming_birthdays host book days = Return result ->
  days <= days' ->
  (exists result',
     get_upcoming_birthdays host book days' = Return result'
     /\ forall c, In c result -> In c result')
  /\ (days < 0 -> result = []).
Proof.
  intros H Hle. apply get_upcoming_birthdays_inv in H. destruct H as [Hocc ->].
  split.
  - rewrite (get_upcoming_birthdays_Return host book days' Hocc).
    eexists. split; [reflexivity|].
    intros c Hc. rewrite flat_map_prepare_users.
    apply in_flat_map in Hc. destruct Hc as (r & Hr & Hc).
    apply in_flat_map. exists r. split; trivial.
    unfold entry_of, entry_at in *.
    destruct (birthday r) as [b |]; trivial.
    destruct (next_occurrence _ (Birthday_value b)) as [occ | e]; trivial.
    destruct (in_window _ days occ) eqn:W; [|contradiction].
    apply in_window_iff in W.
    replace (in_window (dt_date (clock host)) days' occ) with true; trivial.
    symmetry. apply in_window_iff. lia.
  - intros Hneg. induction (values book) as [| r rest IH]; simpl; trivial.
    rewrite IH, app_nil_r. unfold entry_of, entry_at.
    destruct (birthday r) as [b |]; trivial.
    destruct (next_occurrence _ (Birthday_value b)) as [occ | e]; trivial.
    replace (in_window (dt_date (clock host)) days occ) with false; trivial.
    symmetry. apply not_true_iff_false. rewrite in_window_iff. lia.
Qed.

Lemma wider_window_witness :
  exists result',
    get_upcoming_birthdays (mkHost (noon 2024 6 10) false) book_Bob 30
    = Return result'
    /\ forall c, In c [mkCongratulation (lit "Bob") (lit "17.06.2024")] -> In c result'.
Proof.
  refine (proj1 (wider_window (mkHost (noon 2024 6 10) false) book_Bob 7 30
                   [mkCongratulation (lit "Bob") (lit "17.06.2024")] _ _)).
  - vm_compute. reflexivity.
  - lia.
Defined.

(** X15. [find_next_weekday] returns the first date after [d] that falls on
    the weekday asked for: from 1 to 7 days ahead, a full week when [d]
    itself is on that weekday. *)
Theorem find_next_weekday_spec (d : date) (w : Z) :
  0 <= w <= 6 ->
  0 < toordinal d -> toordinal d + 7 <= MAXORDINAL ->
  exists d',
    find_next_weekday d w = Return d'
    /\ weekday d' = w
    /\ 1 <= sub_days d' d <= 7
    /\ (weekday d = w -> sub_days d' d = 7)
    /\ forall k, 1 <= k < sub_days d' d -> (weekday d + k) mod 7 <> w.
Proof.
  intros Hw H0 Hmax. pose proof (weekday_range d) as Wd.
  unfold find_next_weekday.
  set (ahead := if w - weekday d <=? 0 then w - weekday d + 7 else w - weekday d).
  assert (A : 1 <= ahead <= 7 /\ (ahead = w - weekday d \/ ahead = w - weekday d + 7)).
  { unfold ahead. destruct (Z.leb_spec (w - weekday d) 0); lia. }
  destruct A as [A1 A2].
  destruct (add_days_in_range d ahead ltac:(lia)) as (d' & E & _ & S & W).
  exists d'. split; [exact E|]. split.
  - rewrite W. destruct A2 as [-> | ->].
    + replace (weekday d + (w - weekday d)) with w by lia.
      apply Z.mod_small. lia.
    + replace (weekday d + (w - weekday d + 7)) with (w + 1 * 7) by lia.
      rewrite Z.mod_add by lia. apply Z.mod_small. lia.
  - rewrite S. split; [lia|]. split; [lia|].
    intros k Hk Hmod.
    assert (weekday d + k = w \/ weekday d + k = w + 7) as C.
    { pose proof (Z.div_mod (weekday d + k) 7 ltac:(lia)) as D.
      rewrite Hmod in D.
      assert (0 <= (weekday d + k) / 7 <= 1) by (Z.div_mod_to_equations; lia).
      lia. }
    lia.
Qed.

Lemma find_next_weekday_spec_witness :
  exists d',
    find_next_weekday (mkdate 2024 6 10) 0 = Return d'
    /\ weekday d' = 0 /\ sub_days d' (mkdate 2024 6 10) = 7.
Proof.
  destruct (find_next_weekday_spec (mkdate 2024 6 10) 0) as (d' & E & W & _ & S & _).
  - lia.
  - vm_compute. reflexivity.
  - vm_compute. discriminate.
  - exists d'. split; [exact E|]. split; [exact W|]. apply S. vm_compute. reflexivity.
Defined.

(* ================================================================== *)
(** * The command line *)
(* ================================================================== *)

(** A word: not empty, and without a character of white space. *)
Definition word (t : str) : Prop :=
  t <> [] /\ Forall (fun c => isspace_char c = false) t.

Definition blank (s : str) : Prop := Forall (fun c => isspace_char c = true) s.

Lemma split_loop_words (s : str) :
  forall tok,
    Forall (fun c => isspace_char c = false) tok ->
    Forall word (split_loop s tok).
Proof.
  induction s as [| c s IH]; intros tok Htok; simpl.
  - destruct tok as [| x tok']; constructor; [|constructor].
    split; [discriminate | exact Htok].
  - destruct (isspace_char c) eqn:E.
    + destruct tok as [| x tok'].
      * apply IH. constructor.
      * constructor; [split; [discriminate | exact Htok]|]. apply IH. constructor.
    + apply IH. apply Forall_app. split; trivial. now repeat constructor.
Qed.

Lemma split_loop_nil (s : str) :
  forall tok, split_loop s tok = [] <-> tok = [] /\ blank s.
Proof.
  unfold blank. induction s as [| c s IH]; intros tok; simpl.
  - destruct tok; split; try discriminate; auto.
    + intros [H _]. discriminate.
  - destruct (isspace_char c) eqn:E.
    + destruct tok as [| x tok'].
      * rewrite IH. split; intros [H1 H2]; split; trivial.
        -- now constructor.
        -- now inversion H2.
      * split; [discriminate | intros [H _]; discriminate].
    + rewrite IH. split.
      * intros [H _]. now destruct tok.
      * intros [_ H]. inversion H; subst. congruence.
Qed.

Lemma lstrip_space_word (t : str) :
  (forall c t', t = c :: t' -> isspace_char c = false) -> lstrip_space t = t.
Proof.
  destruct t as [| c t']; trivial. intros H. simpl.
  now rewrite (H c t' eq_refl).
Qed.

(** [strip] changes nothing in a word. *)
Lemma strip_word (t : str) : word t -> strip t = t.
Proof.
  intros [N F]. unfold strip.
  rewrite (lstrip_space_word t).
  - rewrite lstrip_space_word; [apply rev_involutive|].
    intros c t' E. rewrite Forall_forall in F. apply F.
    apply in_rev. rewrite E. now left.
  - intros c t' ->. now inversion F.
Qed.

(** X16. [parse_input] cuts the line at white space: the arguments are the
    words of the line after the first, each not empty and free of white
    space, and the command is the first word in lower case ([strip] changes
    nothing in it); a line without a word (empty, or all white space), and
    only such a line, gives the text for a wrong phone in place of the
    tuple. *)
Theorem parse_input_words (lower : str -> str) (user_input : str) :
  parse_input lower user_input
  = match split user_input with
    | [] => Text wrong_format
    | t :: args => Tuple (lower t) args
    end
  /\ Forall word (split user_input)
  /\ (split user_input = [] <-> blank user_input).
Proof.
  assert (W : Forall word (split user_input)).
  { apply split_loop_words. constructor. }
  split; [|split; [exact W|]].
  - unfold parse_input, parse_input_body.
    destruct (split user_input) as [| t args]; [reflexivity|].
    inversion W; subst. now rewrite strip_word.
  - unfold split. rewrite split_loop_nil. tauto.
Qed.

Ltac eval_lits :=
  repeat match goal with
  | |- context [lit ?s] =>
      let v := eval vm_compute in (lit s) in change (lit s) with v
  end.

Lemma str_eqb_single (c x y : Z) (rest : str) : str_eqb [c] (x :: y :: rest) = false.
Proof. simpl. apply andb_false_r. Qed.

(** A command of one character is not a command. *)
Lemma dispatch_single (host : Host) (c : Z) (args : list str) (book : AddressBook) :
  dispatch host [c] args book = ([lit "Invalid command."], book, true).
Proof.
  unfold dispatch. eval_lits. rewrite !str_eqb_single. reflexivity.
Qed.

(** X17. A line without a word makes the loop print that the command is
    invalid and go on with the book as it was: the text that [parse_input]
    returns is taken apart into characters, and its first character is not
    a command. *)
Theorem blank_line (lower : str -> str) (pad : bool) (now : datetime)
    (user_input : str) (rest : list (datetime * str)) (book : AddressBook) :
  blank user_input ->
  main_loop lower pad ((now, user_input) :: rest) book
  = (Prompted prompt :: Printed (lit "Invalid command.")
       :: fst (fst (main_loop lower pad rest book)),
     snd (fst (main_loop lower pad rest book)),
     snd (main_loop lower pad rest book)).
Proof.
  intros B. simpl.
  assert (E : parse_input lower user_input = Text wrong_format).
  { unfold parse_input, parse_input_body.
    replace (split user_input) with (@nil str); [reflexivity|].
    symmetry. apply split_loop_nil. auto. }
  rewrite E. unfold wrong_format at 1. eval_lits. unfold unpack.
  rewrite dispatch_single. eval_lits.
  destruct (main_loop lower pad rest book) as [[evs b] e]. reflexivity.
Qed.

Lemma blank_line_witness :
  main_loop (fun s => s) false [(noon 2024 6 10, lit "   ")] []
  = ([Prompted prompt; Printed (lit "Invalid command."); Prompted prompt],
     [], EndOfInput).
Proof.
  apply (blank_line (fun s => s) false (noon 2024 6 10) (lit "   ") [] []).
  unfold blank. repeat constructor.
Defined.

(** ** What every session keeps *)

(** A record as the commands make it, under the key [k]: stored under its
    own name, which is a word; phones that pass the test of [Phone]; a
    birthday that is a date of the calendar. *)
Definition record_inv (k : str) (r : RecordObj) : Prop :=
  k = Name_value (name r)
  /\ word k
  /\ Forall (fun p => valid_phone (Phone_value p) = true) (phones r)
  /\ (forall b, birthday r = Some b -> valid_date (Birthday_value b)).

Definition book_inv (book : AddressBook) : Prop :=
  NoDup (map fst book) /\ forall k r, In (k, r) book -> record_inv k r.

Lemma setitem_book_inv (key : str) (value : RecordObj) (book : AddressBook) :
  book_inv book -> record_inv key value -> book_inv (setitem key value book).
Proof.
  intros [N K] R. split.
  - rewrite setitem_keys. destruct (find key book) eqn:F; trivial.
    apply NoDup_app; trivial.
    + repeat constructor. intros [].
    + intros k Hk [<- | []]. now apply (find_None_keys _ _ F).
  - intros k r H. apply In_setitem in H. destruct H as [[-> ->] | H]; auto.
Qed.

Lemma add_phone_inv (k : str) (self : RecordObj) (phone : str) :
  record_inv k self -> record_inv k (snd (add_phone self phone)).
Proof.
  intros R. unfold add_phone, Phone_init. rewrite valid_phone_test.
  destruct (valid_phone phone) eqn:V; simpl; trivial.
  destruct R as (Hn & Hw & Hp & Hb).
  split; [exact Hn|]. split; [exact Hw|]. split; [|exact Hb].
  simpl. apply Forall_app. split; trivial. now repeat constructor.
Qed.

Lemma edit_phone_inv (k : str) (self : RecordObj) (old_phone new_phone : str) :
  record_inv k self -> record_inv k (snd (edit_phone self old_phone new_phone)).
Proof.
  intros R. unfold edit_phone.
  destruct (first_phone (phones self) old_phone) as [A | (l1 & p & l2 & E & H1 & Hp)].
  - rewrite (edit_phone_loop_absent _ _ _ A). simpl. now rewrite set_phones_same.
  - rewrite E, (edit_phone_loop_found l1 l2 p old_phone new_phone H1 Hp).
    destruct (valid_phone new_phone) eqn:V; simpl.
    + destruct R as (Hn & Hw & Hps & Hb).
      split; [exact Hn|]. split; [exact Hw|]. split; [|exact Hb].
      simpl. rewrite E in Hps. apply Forall_app in Hps. destruct Hps as [P1 P2].
      apply Forall_app. split; trivial. inversion P2; subst. now constructor.
    + now rewrite <- E, set_phones_same.
Qed.

Lemma add_birthday_inv (k : str) (self : RecordObj) (text : str) :
  record_inv k self -> record_inv k (snd (add_birthday self text)).
Proof.
  intros R. unfold add_birthday.
  destruct (Birthday_init_cases text) as [(b & -> & V) | ->]; simpl; trivial.
  destruct R as (Hn & Hw & Hps & Hb).
  split; [exact Hn|]. split; [exact Hw|]. split; [exact Hps|].
  simpl. intros b' H. now injection H as <-.
Qed.

Lemma find_record_inv (k : str) (r : RecordObj) (book : AddressBook) :
  book_inv book -> find k book = Some r -> record_inv k r.
Proof. intros [_ K] F. now apply K, find_In. Qed.

Lemma add_contact_inv (args : list str) (book : AddressBook) :
  Forall word args -> book_inv book -> book_inv (snd (add_contact args book)).
Proof.
  intros W I.
  assert (B : book_inv (snd (add_contact_body args book))).
  { unfold add_contact_body.
    destruct args as [| name_ [| phone rest]]; trivial.
    inversion W as [| ? ? Wn W']; subst.
    unfold addOrGet.
    destruct (find name_ book) as [r |] eqn:F; simpl.
    - pose proof (find_record_inv _ _ _ I F) as R.
      destruct phone as [| c phone']; trivial.
      pose proof (add_phone_inv name_ r (c :: phone') R) as R'.
      destruct (add_phone r (c :: phone')) as [[u | e] r']; simpl in *;
        [now apply setitem_book_inv | exact I].
    - assert (R : record_inv name_ (mkRecord (mkName name_) [] None)).
      { split; [reflexivity|]. split; [exact Wn|]. split; [constructor|].
        discriminate. }
      assert (I' : book_inv (add_record (mkRecord (mkName name_) [] None) book)).
      { now apply setitem_book_inv. }
      destruct phone as [| c phone']; trivial.
      pose proof (add_phone_inv name_ _ (c :: phone') R) as R'.
      destruct (add_phone _ (c :: phone')) as [[u | e] r']; simpl in *;
        [now apply setitem_book_inv | exact I']. }
  unfold add_contact, input_error.
  destruct (add_contact_body args book) as [[v | e] book']; simpl in *; trivial.
  destruct e; trivial.
Qed.

Lemma change_contact_inv (args : list str) (book : AddressBook) :
  book_inv book -> book_inv (snd (Commands.change_contact args book)).
Proof.
  intros I.
  assert (B : book_inv (snd (Commands.change_contact_body args book))).
  { unfold Commands.change_contact_body.
    destruct (len args <? 3); trivial.
    destruct args as [| name_ [| old_phone [| new_phone [| x rest]]]]; trivial.
    destruct (find name_ book) as [r |] eqn:F; trivial.
    destruct (find_phone r old_phone); trivial.
    pose proof (edit_phone_inv name_ r old_phone new_phone
                  (find_record_inv _ _ _ I F)) as R'.
    destruct (edit_phone r old_phone new_phone) as [[u | e] r']; simpl in *.
    - now apply setitem_book_inv.
    - destruct e; simpl; now apply setitem_book_inv. }
  unfold Commands.change_contact, input_error.
  destruct (Commands.change_contact_body args book) as [[v | e] book'];
    simpl in *; trivial.
  destruct e; trivial.
Qed.

Lemma add_birthday_command_inv (args : list str) (book : AddressBook) :
  book_inv book -> book_inv (snd (Commands.add_birthday args book)).
Proof.
  intros I.
  assert (B : book_inv (snd (Commands.add_birthday_body args book))).
  { unfold Commands.add_birthday_body.
    destruct (len args <? 2); trivial.
    destruct args as [| name_ [| text [| x rest]]]; trivial.
    destruct (find name_ book) as [r |] eqn:F; trivial.
    pose proof (add_birthday_inv name_ r text (find_record_inv _ _ _ I F)) as R'.
    destruct (add_birthday r text) as [[u | e] r']; simpl in *.
    - now apply setitem_book_inv.
    - destruct e; simpl; now apply setitem_book_inv. }
  unfold Commands.add_birthday, input_error.
  destruct (Commands.add_birthday_body args book) as [[v | e] book'];
    simpl in *; trivial.
  destruct e; trivial.
Qed.

Lemma dispatch_inv (host : Host) (command : str) (args : list str)
    (book : AddressBook) :
  Forall word args -> book_inv book ->
  book_inv (snd (fst (dispatch host command args book))).
Proof.
  intros W I. unfold dispatch.
  repeat match goal with
         | |- context [if ?b then _ else _] => destruct b; simpl; trivial
         end.
  - pose proof (add_contact_inv args book W I) as H.
    now destruct (add_contact args book).
  - pose proof (change_contact_inv args book I) as H.
    now destruct (Commands.change_contact args book).
  - pose proof (add_birthday_command_inv args book I) as H.
    now destruct (Commands.add_birthday args book).
Qed.

Lemma main_loop_inv (lower : str -> str) (pad : bool)
    (inputs : list (datetime * str)) :
  forall book,
    book_inv book -> book_inv (snd (fst (main_loop lower pad inputs book))).
Proof.
  induction inputs as [| [now user_input] rest IH]; intros book I; simpl; trivial.
  assert (S : exists command args,
             unpack (parse_input lower user_input) = Return (command, args)
             /\ book_inv (snd (fst (dispatch (mkHost now pad) command args book)))).
  { unfold parse_input, parse_input_body.
    pose proof (split_loop_words user_input [] (Forall_nil _)) as W.
    fold (split user_input) in W.
    destruct (split user_input) as [| t args]; simpl.
    - eval_lits. do 2 eexists. split; [reflexivity|].
      rewrite dispatch_single. exact I.
    - do 2 eexists. split; [reflexivity|]. apply dispatch_inv; trivial.
      now inversion W. }
  destruct S as (command & args & -> & D).
  destruct (dispatch (mkHost now pad) command args book) as [[out book'] go_on].
  simpl in D. destruct go_on; simpl; trivial.
  specialize (IH book' D).
  now destruct (main_loop lower pad rest book') as [[evs b] e].
Qed.

(** X18. Whatever is typed, the book that [main] is left with has one record
    per name, each stored under its own name; every name is a word (not
    empty, no white space), every phone passes the test of [Phone], and
    every birthday is a date of the calendar. *)
Theorem session_book (lower : str -> str) (pad : bool)
    (inputs : list (datetime * str)) :
  let book := snd (fst (main lower pad inputs)) in
  book_ok book
  /\ forall k r,
       In (k, r) book ->
       k = Name_value (name r)
       /\ k <> []
       /\ Forall (fun c => isspace_char c = false) k
       /\ Forall (fun p => valid_phone (Phone_value p) = true) (phones r)
       /\ (forall b, birthday r = Some b -> valid_date (Birthday_value b)).
Proof.
  assert (I : book_inv (snd (fst (main lower pad inputs)))).
  { unfold main.
    pose proof (main_loop_inv lower pad inputs [])
      as H.
    destruct (main_loop lower pad inputs []) as [[evs b] e]. simpl in *.
    apply H. split; [constructor | intros k r []]. }
  simpl. destruct I as [N K]. split.
  - split; trivial. intros k r H. now apply K.
  - intros k r H. destruct (K k r H) as (Hn & [Hne Hw] & Hp & Hb). auto.
Qed.

(* ================================================================== *)
(** * Occurrences and the order of dates *)
(* ================================================================== *)

Lemma days_before_year_next (y : Z) :
  days_before_year (y + 1)
  = days_before_year y + 365 + (if is_leap y then 1 else 0).
Proof.
  unfold days_before_year, is_leap. cbv zeta.
  replace (y + 1 - 1) with y by lia.
  destruct (Z.eqb_spec (y mod 4) 0);
    destruct (Z.eqb_spec (y mod 100) 0);
    destruct (Z.eqb_spec (y mod 400) 0); simpl;
    Z.div_mod_to_equations; lia.
Qed.

Lemma month_cases (m : Z) :
  1 <= m <= 12 ->
  m = 1 \/ m = 2 \/ m = 3 \/ m = 4 \/ m = 5 \/ m = 6 \/ m = 7 \/ m = 8
  \/ m = 9 \/ m = 10 \/ m = 11 \/ m = 12.
Proof. lia. Qed.

(** The days before a month, and with the month. *)
Lemma days_before_month_next (y m : Z) :
  1 <= m <= 12 ->
  0 <= days_before_month y m
  /\ days_before_month y m + days_in_month y m
     = (if m =? 12 then 365 + (if is_leap y then 1 else 0)
        else days_before_month y (m + 1)).
Proof.
  intros H. apply month_cases in H.
  unfold days_before_month, days_in_month, DAYS_BEFORE_MONTH, DAYS_IN_MONTH.
  destruct (is_leap y);
    repeat (destruct H as [-> | H]; [simpl; lia|]); subst; simpl; lia.
Qed.

Lemma days_before_month_mono (y m1 m2 : Z) :
  1 <= m1 -> m1 <= m2 -> m2 <= 12 ->
  days_before_month y m1 <= days_before_month y m2.
Proof.
  intros H1 H12 H2.
  assert (C1 := month_cases m1 ltac:(lia)).
  assert (C2 := month_cases m2 ltac:(lia)).
  unfold days_before_month, DAYS_BEFORE_MONTH.
  destruct (is_leap y);
    repeat (destruct C1 as [-> | C1];
            [repeat (destruct C2 as [-> | C2]; [simpl; lia|]);
             subst; simpl; lia|]);
    subst m1;
    repeat (destruct C2 as [-> | C2]; [simpl; lia|]); subst; simpl; lia.
Qed.

(** In one year, the earlier date has the smaller day of the year. *)
Lemma day_of_year_lt (y m1 d1 m2 d2 : Z) :
  1 <= m1 <= 12 -> 1 <= d1 <= days_in_month y m1 ->
  1 <= m2 <= 12 -> 1 <= d2 ->
  m1 < m2 \/ (m1 = m2 /\ d1 < d2) ->
  days_before_month y m1 + d1 < days_before_month y m2 + d2.
Proof.
  intros Hm1 Hd1 Hm2 Hd2 [L | [-> L]]; [|lia].
  pose proof (days_before_month_next y m1 Hm1) as [_ N].
  replace (m1 =? 12) with false in N by (symmetry; apply Z.eqb_neq; lia).
  pose proof (days_before_month_mono y (m1 + 1) m2 ltac:(lia) ltac:(lia) ltac:(lia)).
  lia.
Qed.

Lemma days_before_month_leap_shift (y y' m : Z) :
  1 <= m <= 12 -> days_before_month y' m <= days_before_month y m + 1.
Proof.
  intros H. unfold days_before_month.
  destruct ((2 <? m) && is_leap y'), ((2 <? m) && is_leap y); lia.
Qed.

(** The occurrence is never before today, and never more than 366 days
    after it. *)
Lemma next_occurrence_bounds (today b occ : date) :
  valid_date today ->
  next_occurrence today b = Return occ ->
  0 <= sub_days occ today <= 366.
Proof.
  intros (Ty & Tm & Td) H. unfold MINYEAR, MAXYEAR in Ty.
  unfold next_occurrence, replace_year in H.
  destruct (date_new (year today) (month b) (day b)) as [d0 |] eqn:E0;
    simpl in H; [|discriminate].
  apply date_new_Return in E0. destruct E0 as [-> (Vy & Vm & Vd)].
  simpl in Vy, Vm, Vd.
  pose proof (days_before_month_bounds _ _ _ Tm Td) as Bt.
  pose proof (days_before_month_bounds _ _ _ Vm Vd) as Bo.
  pose proof (days_before_year_next (year today)) as Ny.
  unfold date_ltb in H. simpl in H.
  rewrite Z.ltb_irrefl, Z.eqb_refl in H. simpl in H.
  destruct ((month b <? month today)
            || (month b =? month today) && (day b <? day today)) eqn:L.
  - apply date_new_Return in H. destruct H as [-> (Oy & Om & Od)].
    simpl in Oy, Om, Od.
    assert (Lt : month b < month today
                 \/ (month b = month today /\ day b < day today)).
    { apply orb_true_iff in L. destruct L as [L | L].
      - left. now apply Z.ltb_lt.
      - right. apply andb_true_iff in L. destruct L as [L1 L2].
        apply Z.eqb_eq in L1. apply Z.ltb_lt in L2. auto. }
    pose proof (day_of_year_lt (year today) (month b) (day b) (month today)
                  (day today) Vm Vd Tm ltac:(lia) Lt).
    pose proof (days_before_month_leap_shift (year today) (year today + 1) _ Vm).
    pose proof (days_before_month_bounds _ _ _ Om Od) as Bn.
    unfold sub_days, toordinal, ymd2ord. simpl.
    destruct (is_leap (year today)); lia.
  - injection H as <-.
    assert (Ge : days_before_month (year today) (month today) + day today
                 <= days_before_month (year today) (month b) + day b).
    { apply orb_false_iff in L. destruct L as [L1 L2].
      apply Z.ltb_ge in L1.
      destruct (Z.eq_dec (month b) (month today)) as [Em | Nm].
      - rewrite Em in *. rewrite Z.eqb_refl in L2. simpl in L2.
        apply Z.ltb_ge in L2. lia.
      - assert (month today < month b \/ (month today = month b /\ day today < day b))
          as Lt by lia.
        pose proof (day_of_year_lt (year today) (month today) (day today)
                      (month b) (day b) Tm Td Vm ltac:(lia) Lt).
        lia. }
    unfold sub_days, toordinal, ymd2ord. simpl.
    destruct (is_leap (year today)); lia.
Qed.

(** X19. The occurrence of a birthday is never before today and at most 366
    days after it: the test [0 <=] of the window never removes a contact,
    and with a window of 366 days or more the query, when it returns,
    returns every contact of the book that has a birthday, in the order of
    the book. *)
Theorem occurrence_within_a_year (host : Host) (book : AddressBook) (days : Z)
    (result : list congratulation) :
  valid_date (dt_date (clock host)) ->
  get_upcoming_birthdays host book days = Return result ->
  (forall r b occ,
     In r (values book) -> birthday r = Some b ->
     next_occurrence (dt_date (clock host)) (Birthday_value b) = Return occ ->
     0 <= sub_days occ (dt_date (clock host)) <= 366)
  /\ (366 <= days ->
      map cg_name result
      = map (fun r => Name_value (name r)) (prepare_users (values book))).
Proof.
  intros V H. split.
  - intros r b occ _ _ Ho. now apply (next_occurrence_bounds _ _ _ V Ho).
  - intros Hd. apply get_upcoming_birthdays_inv in H. destruct H as [Hocc ->].
    unfold occurrences_exist in Hocc.
    induction (values book) as [| r rest IH]; simpl; trivial.
    rewrite map_app, entry_of_names.
    rewrite IH by (intros; eapply Hocc; eauto; now right).
    unfold in_window_of.
    destruct (birthday r) as [b |] eqn:B; simpl; trivial.
    destruct (Hocc r b (or_introl eq_refl) B) as [occ Ho]. rewrite Ho.
    pose proof (next_occurrence_bounds _ _ _ V Ho) as Bd.
    replace (in_window (dt_date (clock host)) days occ) with true; trivial.
    symmetry. apply in_window_iff. lia.
Qed.

Lemma occurrence_within_a_year_witness :
  map cg_name [mkCongratulation (lit "Bob") (lit "17.06.2024")]
  = map (fun r => Name_value (name r)) (prepare_users (values book_Bob)).
Proof.
  refine (proj2 (occurrence_within_a_year (mkHost (noon 2023 7 1) false) book_Bob 400
                   [mkCongratulation (lit "Bob") (lit "17.06.2024")] _ _) _).
  - unfold valid_date. vm_compute. intuition discriminate.
  - vm_compute. reflexivity.
  - lia.
Defined.

(** X20. [find_phone] returns the first entry with the value, and none
    exactly when no entry has it, which is exactly when [edit_phone] raises
    that the old number is not found. *)
Theorem find_phone_spec (self : RecordObj) (phone new_phone : str) :
  (forall p, find_phone self phone = Some p ->
     exists l1 l2,
       phones self = l1 ++ p :: l2
       /\ (forall q, In q l1 -> Phone_value q <> phone)
       /\ Phone_value p = phone)
  /\ (find_phone self phone = None
      <-> forall q, In q (phones self) -> Phone_value q <> phone)
  /\ (find_phone self phone = None
      <-> edit_phone self phone new_phone
          = (Raise (ValueError (lit "Old phone number not found")), self)).
Proof.
  destruct (first_phone (phones self) phone) as [A | (l1 & p & l2 & E & H1 & Hp)].
  - rewrite (find_phone_absent self phone A). split; [discriminate|].
    split; [tauto|]. split; trivial. intros _.
    unfold edit_phone. rewrite (edit_phone_loop_absent _ _ _ A). simpl.
    now rewrite set_phones_same.
  - rewrite (find_phone_found self phone l1 l2 p E H1 Hp). split; [|split].
    + intros p' H. injection H as <-. eauto.
    + split; [discriminate|]. intros A. exfalso. apply (A p); trivial.
      rewrite E. apply in_or_app. right. now left.
    + split; [discriminate|]. unfold edit_phone.
      rewrite E, (edit_phone_loop_found l1 l2 p phone new_phone H1 Hp).
      destruct (valid_phone new_phone); simpl; intros H; discriminate H.
Qed.

(* ================================================================== *)
(** * The texts that [Birthday] accepts *)
(* ================================================================== *)

Lemma orelse_Some {R : Type} (a b : option R) (v : R) :
  orelse a b = Some v -> a = Some v \/ b = Some v.
Proof. destruct a; simpl; auto. Qed.

Lemma two_Some {R : Type} (lo hi : Z) (p : Z -> bool) (k : str -> str -> option R)
    (s : str) (v : R) :
  two lo hi p k s = Some v ->
  exists g r, s = g ++ r /\ List.length g = 2%nat /\ k g r = Some v.
Proof.
  unfold two. destruct s as [| a [| b r]]; try discriminate.
  destruct (_ && _); [|discriminate]. intros H. now exists [a; b], r.
Qed.

Lemma one_Some {R : Type} (lo hi : Z) (k : str -> str -> option R)
    (s : str) (v : R) :
  one lo hi k s = Some v ->
  exists g r, s = g ++ r /\ List.length g = 1%nat /\ k g r = Some v.
Proof.
  unfold one. destruct s as [| a r]; try discriminate.
  destruct (_ && _); [|discriminate]. intros H. now exists [a], r.
Qed.

Lemma re_d_Some {R : Type} (k : str -> str -> option R) (s : str) (v : R) :
  re_d k s = Some v ->
  exists g r, s = g ++ r /\ (1 <= List.length g <= 2)%nat /\ k g r = Some v.
Proof.
  unfold re_d. intros H.
  repeat (apply orelse_Some in H; destruct H as [H | H]);
    (apply two_Some in H || apply one_Some in H);
    destruct H as (g & r & E & L & K); exists g, r; repeat split; trivial; lia.
Qed.

Lemma re_m_Some {R : Type} (k : str -> str -> option R) (s : str) (v : R) :
  re_m k s = Some v ->
  exists g r, s = g ++ r /\ (1 <= List.length g <= 2)%nat /\ k g r = Some v.
Proof.
  unfold re_m. intros H.
  repeat (apply orelse_Some in H; destruct H as [H | H]);
    (apply two_Some in H || apply one_Some in H);
    destruct H as (g & r & E & L & K); exists g, r; repeat split; trivial; lia.
Qed.

Lemma re_Y_Some {R : Type} (k : str -> str -> option R) (s : str) (v : R) :
  re_Y k s = Some v ->
  exists g r, s = g ++ r /\ List.length g = 4%nat /\ k g r = Some v.
Proof.
  unfold re_Y. destruct s as [| a [| b [| c [| d r]]]]; try discriminate.
  destruct (_ && _); [|discriminate]. intros H. now exists [a; b; c; d], r.
Qed.

Lemma re_dot_Some {R : Type} (k : str -> option R) (s : str) (v : R) :
  re_dot k s = Some v -> exists r, s = 46 :: r /\ k r = Some v.
Proof.
  unfold re_dot. destruct s as [| c r]; try discriminate.
  destruct (Z.eqb_spec c 46) as [-> |]; [|discriminate]. eauto.
Qed.

(** A match is a day of one or two characters, a point, a month of one or
    two characters, a point, and a year of four characters. *)
Lemma re_match_Some (s d m Y rest : str) :
  re_match s = Some (d, m, Y, rest) ->
  s = d ++ [46] ++ m ++ [46] ++ Y ++ rest
  /\ (1 <= List.length d <= 2)%nat /\ (1 <= List.length m <= 2)%nat
  /\ List.length Y = 4%nat.
Proof.
  unfold re_match. intros H.
  apply re_d_Some in H. destruct H as (g1 & r1 & -> & L1 & H).
  apply re_dot_Some in H. destruct H as (r2 & -> & H).
  apply re_m_Some in H. destruct H as (g2 & r3 & -> & L2 & H).
  apply re_dot_Some in H. destruct H as (r4 & -> & H).
  apply re_Y_Some in H. destruct H as (g3 & r5 & -> & L3 & H).
  injection H as <- <- <- <-. auto.
Qed.

(** A day or a month without the zero in front. *)
Definition fmt_short (n : Z) : str := if n <? 10 then [48 + n] else fmt2 n.

Lemma digit_cases (n : Z) :
  1 <= n <= 9 ->
  n = 1 \/ n = 2 \/ n = 3 \/ n = 4 \/ n = 5 \/ n = 6 \/ n = 7 \/ n = 8 \/ n = 9.
Proof. lia. Qed.

Lemma re_d_short {R : Type} (k : str -> str -> option R) (n : Z) (rest : str)
    (v : R) :
  1 <= n <= 9 ->
  k [48 + n] (46 :: rest) = Some v ->
  re_d k ([48 + n] ++ 46 :: rest) = Some v.
Proof.
  intros H. apply digit_cases in H.
  repeat (destruct H as [-> | H];
          [intros K; unfold re_d, two, one; simpl; simpl in K; rewrite K;
           reflexivity|]).
  subst. intros K. unfold re_d, two, one. simpl. simpl in K. rewrite K.
  reflexivity.
Qed.

Lemma re_m_short {R : Type} (k : str -> str -> option R) (n : Z) (rest : str)
    (v : R) :
  1 <= n <= 9 ->
  k [48 + n] (46 :: rest) = Some v ->
  re_m k ([48 + n] ++ 46 :: rest) = Some v.
Proof.
  intros H. apply digit_cases in H.
  repeat (destruct H as [-> | H];
          [intros K; unfold re_m, two, one; simpl; simpl in K; rewrite K;
           reflexivity|]).
  subst. intros K. unfold re_m, two, one. simpl. simpl in K. rewrite K.
  reflexivity.
Qed.

Lemma int_short (n : Z) : 1 <= n <= 9 -> int [48 + n] = n.
Proof.
  intros H. unfold int, lstrip.
  replace (48 + n =? 32) with false by (symmetry; apply Z.eqb_neq; lia).
  change [48 + n] with (map (Z.add 48) [n]).
  rewrite int_digits by (repeat constructor; lia). simpl. lia.
Qed.

(** The day and the month of a text, each as [Birthday] reads it: with or
    without the zero in front. *)
Lemma re_match_forms (d : date) (fd fm : Z -> str) :
  valid_date d ->
  fd = fmt2 \/ fd = fmt_short ->
  fm = fmt2 \/ fm = fmt_short ->
  re_match (fd (day d) ++ [46] ++ fm (month d) ++ [46] ++ fmt4 (year d))
  = Some (fd (day d), fm (month d), fmt4 (year d), [])
  /\ int (fd (day d)) = day d /\ int (fm (month d)) = month d.
Proof.
  intros V Hfd Hfm. pose proof (valid_date_day d V) as Hd'.
  destruct V as (Hy & Hm & Hd). unfold MINYEAR, MAXYEAR in Hy.
  assert (Y : forall rest : str,
            rest = [] ->
            re_Y (fun Y r5 => Some (fd (day d), fm (month d), Y, r5))
                 (fmt4 (year d) ++ rest)
            = Some (fd (day d), fm (month d), fmt4 (year d), [])).
  { intros rest ->. now rewrite re_Y_canonical by lia. }
  assert (M : re_m (fun m r3 =>
                re_dot (fun r4 =>
                  re_Y (fun Y r5 => Some (fd (day d), m, Y, r5)) r4) r3)
                (fm (month d) ++ [46] ++ fmt4 (year d))
              = Some (fd (day d), fm (month d), fmt4 (year d), [])
              /\ int (fm (month d)) = month d).
  { assert (K : re_dot (fun r4 =>
                  re_Y (fun Y r5 => Some (fd (day d), fm (month d), Y, r5)) r4)
                  ([46] ++ fmt4 (year d))
                = Some (fd (day d), fm (month d), fmt4 (year d), [])).
    { rewrite re_dot_canonical. rewrite <- (app_nil_r (fmt4 (year d))) at 1.
      now apply Y. }
    destruct Hfm as [-> | ->].
    - split; [|apply int_fmt2; lia]. apply re_m_canonical; trivial.
    - unfold fmt_short in *. destruct (Z.ltb_spec (month d) 10).
      + split; [|apply int_short; lia]. apply re_m_short; [lia|]. exact K.
      + split; [|apply int_fmt2; lia]. apply re_m_canonical; trivial. }
  destruct M as [M Im]. split; [|split; [|exact Im]].
  - unfold re_match.
    assert (K : re_dot (fun r2 =>
                  re_m (fun m r3 =>
                    re_dot (fun r4 =>
                      re_Y (fun Y r5 => Some (fd (day d), m, Y, r5)) r4) r3) r2)
                  ([46] ++ fm (month d) ++ [46] ++ fmt4 (year d))
                = Some (fd (day d), fm (month d), fmt4 (year d), [])).
    { rewrite re_dot_canonical. exact M. }
    destruct Hfd as [-> | ->].
    + apply re_d_canonical; trivial.
    + unfold fmt_short in *. destruct (Z.ltb_spec (day d) 10).
      * apply re_d_short; [lia|]. exact K.
      * apply re_d_canonical; trivial.
  - destruct Hfd as [-> | ->]; [apply int_fmt2; lia|].
    unfold fmt_short. destruct (Z.ltb_spec (day d) 10);
      [apply int_short | apply int_fmt2]; lia.
Qed.

(** X21. [Birthday] either raises its [ValueError], or stores a date of the
    calendar; a text it accepts has from 8 to 10 characters.  It accepts
    the day and the month of a date with or without the zero in front, and
    stores the same date for all these forms. *)
Theorem Birthday_accepts (s : str) :
  (Birthday_init s = Raise (ValueError (lit "Invalid date format. Use DD.MM.YYYY"))
   \/ exists b,
        Birthday_init s = Return b
        /\ valid_date (Birthday_value b) /\ 8 <= len s <= 10)
  /\ (forall d fd fm,
        valid_date d ->
        fd = fmt2 \/ fd = fmt_short ->
        fm = fmt2 \/ fm = fmt_short ->
        s = fd (day d) ++ [46] ++ fm (month d) ++ [46] ++ fmt4 (year d) ->
        Birthday_init s = Return (mkBirthday d)).
Proof.
  split.
  - destruct (Birthday_init_cases s) as [(b & E & V) | E]; [|now left].
    right. exists b. split; [exact E|]. split; [exact V|].
    unfold Birthday_init, strptime_dmY in E.
    destruct (re_match s) as [[[[d m] Y] rest] |] eqn:M; [|discriminate].
    destruct rest; [|discriminate].
    apply re_match_Some in M. destruct M as (-> & Ld & Lm & LY).
    unfold len. rewrite !length_app. simpl. lia.
  - intros d fd fm V Hfd Hfm ->.
    destruct (re_match_forms d fd fm V Hfd Hfm) as (M & Id & Im).
    unfold Birthday_init, strptime_dmY. rewrite M, Id, Im.
    pose proof V as (Hy & _). unfold MINYEAR, MAXYEAR in Hy.
    rewrite int_fmt4 by lia. rewrite (date_new_valid d V). reflexivity.
Qed.
